(** * Sudoku solver: grid model, validity checks, backtracking and hints

    A shallow embedding of [github.com/liampulles/sudoku-solver].  The
    repository holds three drafts of the same package:

    - the group based draft ([CellGroup.Valid], [Grid.Rows], [Grid.Columns],
      [Grid.Boxes], [Grid.Loop], and a [Grid.Valid] that checks the 27
      groups one after the other);
    - the seen-table draft ([Grid.Valid] as one row-major scan with three
      [9][10]bool tables) together with [Count], [RowAt], [ColumnAt],
      [BoxAt], [NumCounts], [Apply], [Possibilities], [Sort], [Rank],
      [groupMoves], [Backtrack] and [Hint];
    - a third draft that repeats the seen-table [Grid.Valid] and
      [Backtrack] over [[9][9]Cell].

    Go arrays are modelled as lists (a [Grid] is a list of 9 lists of 9
    cells), a [Cell] (uint8) and an [int] as [Z], indices produced by
    [range] as [nat].  A Go run-time panic is an explicit outcome. *)

From Stdlib Require Import ZArith Lia Ascii Sorted.
From stdpp Require Import base tactics option numbers strings list.

Local Open Scope Z_scope.
#[local] Set Warnings "-clear-no-such-hyp".

(** ** Outcomes: values and panics *)

(** [IndexOutOfRange] is Go's run-time panic on an array or slice index,
    [NoMovesAvailable] is the explicit [panic] of [Hint].  [DepthExceeded]
    is not a Go panic: it marks a run of the depth-bounded model of
    [Backtrack] that needed more nested calls than it was given. *)
Inductive panic : Type :=
  | IndexOutOfRange
  | NoMovesAvailable
  | DepthExceeded.

Inductive result (A : Type) : Type :=
  | Ok (a : A)
  | Panic (e : panic).
Arguments Ok {A} a.
Arguments Panic {A} e.

#[global] Instance result_ret : MRet result := fun A a => Ok a.
#[global] Instance result_bind : MBind result := fun A B f r =>
  match r with
  | Ok a => f a
  | Panic e => Panic e
  end.

(** What one iteration of a loop body does: go on with a new loop state,
    leave the function with a value, or panic. *)
Inductive flow (S R : Type) : Type :=
  | Next (s : S)
  | Return (r : R)
  | Abort (e : panic).
Arguments Next {S R} s.
Arguments Return {S R} r.
Arguments Abort {S R} e.

(** [for _, x := range l { body }] with loop state [s]. *)
Fixpoint foreach {A S R : Type} (l : list A) (body : A -> S -> flow S R)
    (s : S) : flow S R :=
  match l with
  | [] => Next s
  | x :: l' =>
      match body x s with
      | Next s' => foreach l' body s'
      | Return r => Return r
      | Abort e => Abort e
      end
  end.

(** [range l] yields the pairs (index, element). *)
Definition indexed {A : Type} (l : list A) : list (nat * A) :=
  imap (fun i x => (i, x)) l.

(** A loop body that never leaves the function early. *)
Definition finish {S : Type} (f : flow S Empty_set) : result S :=
  match f with
  | Next s => Ok s
  | Return r => match r with end
  | Abort e => Panic e
  end.

(** [a[i]] for a Go [int] or [uint8] index. *)
Definition index {A : Type} (l : list A) (i : Z) : result A :=
  if decide (0 <= i) then
    match l !! Z.to_nat i with
    | Some x => Ok x
    | None => Panic IndexOutOfRange
    end
  else Panic IndexOutOfRange.

(** [a[i]] for an index that a [range] loop produced. *)
Definition at_nat {A : Type} (l : list A) (i : nat) : result A :=
  match l !! i with
  | Some x => Ok x
  | None => Panic IndexOutOfRange
  end.

(** ** High-level types *)

(** [type Cell uint8], from 0 to 9 (0 meaning unset);
    [type CellGroup [9]Cell]; [type Grid [9]CellGroup]. *)
Abbreviation Cell := Z (only parsing).
Abbreviation CellGroup := (list Z) (only parsing).
Abbreviation Grid := (list (list Z)) (only parsing).

(** The Go array types: nine rows of nine cells. *)
Definition grid_shape (g : Grid) : Prop :=
  length g = 9%nat /\ Forall (fun row : list Z => length row = 9%nat) g.

(** The data model: every cell is 0 (empty) or a digit 1 to 9. *)
Definition group_in_range (c : CellGroup) : Prop :=
  Forall (fun v => 0 <= v <= 9) c.

Definition is_grid (g : Grid) : Prop :=
  length g = 9%nat /\
  Forall (fun row : list Z => length row = 9%nat /\ group_in_range row) g.

(** The zero value of a Go array. *)
Definition zero_group : CellGroup := replicate 9 0.
Definition zero_grid : Grid := replicate 9 zero_group.

(** [g[row][col]] read through [option]. *)
Definition cell (g : Grid) (row col : nat) : option Z :=
  g !! row ≫= fun rowCells => rowCells !! col.

(** [variant[row][col] = v] after [variant := g], for indices in range. *)
Definition store (g : Grid) (row col : nat) (v : Z) : Grid :=
  alter (fun rowCells => <[col := v]> rowCells) row g.

(** ** The group based draft *)

(** [CellGroup.Valid]: no duplicates among the cells 1 to 9. *)
Definition CellGroup_Valid_body (cell : Z) (numSeen : list bool)
    : flow (list bool) bool :=
  if decide (cell = 0) then Next numSeen
  else
    match index numSeen cell with
    | Panic e => Abort e
    | Ok true => Return false
    | Ok false => Next (<[Z.to_nat cell := true]> numSeen)
    end.

Definition CellGroup_Valid (c : CellGroup) : result bool :=
  match foreach c CellGroup_Valid_body (replicate 10 false) with
  | Next _ => Ok true
  | Return b => Ok b
  | Abort e => Panic e
  end.

(** [Grid.Loop]: call [fn] on every cell in row-major order.  The callback
    of the source writes to a captured array, which is the loop state. *)
Definition Loop {S : Type} (g : Grid) (fn : nat -> nat -> Z -> S -> S) (s : S) : S :=
  fold_left (fun s '(row, rowCells) =>
    fold_left (fun s '(col, cell) => fn row col cell s) (indexed rowCells) s)
    (indexed g) s.

Definition Rows (g : Grid) : list CellGroup := g.

(** [Grid.Columns]: [columns[col][row] = cell]. *)
Definition Columns (g : Grid) : list CellGroup :=
  Loop g (fun row col cell columns => store columns col row cell) zero_grid.

(** [Grid.Boxes]: [boxes[box][pos] = cell]. *)
Definition Boxes (g : Grid) : list CellGroup :=
  Loop g (fun row col cell boxes =>
    let boxRow := (row / 3)%nat in
    let boxCol := (col / 3)%nat in
    let box := (boxCol * 3 + boxRow)%nat in
    let posRow := (row - boxRow * 3)%nat in
    let posCol := (col - boxCol * 3)%nat in
    let pos := (posCol * 3 + posRow)%nat in
    store boxes box pos cell) zero_grid.

(** [for _, group := range groups { if !group.Valid() { return false } }] *)
Definition groups_Valid_body (group : CellGroup) (s : unit) : flow unit bool :=
  match CellGroup_Valid group with
  | Panic e => Abort e
  | Ok false => Return false
  | Ok true => Next s
  end.

(** [Grid.Valid] of the group based draft: rows, then columns, then boxes. *)
Definition Grid_Valid_groups (g : Grid) : result bool :=
  match foreach (Rows g) groups_Valid_body tt with
  | Abort e => Panic e
  | Return b => Ok b
  | Next _ =>
      match foreach (Columns g) groups_Valid_body tt with
      | Abort e => Panic e
      | Return b => Ok b
      | Next _ =>
          match foreach (Boxes g) groups_Valid_body tt with
          | Abort e => Panic e
          | Return b => Ok b
          | Next _ => Ok true
          end
      end
  end.

(** ** The seen-table draft *)

(** [var numsSeenByRow [9][10]bool] and its two siblings. *)
Abbreviation seen_table := (list (list bool)) (only parsing).
Definition no_seen : seen_table := replicate 9 (replicate 10 false).

(** [table[i][cell]] *)
Definition seen (t : seen_table) (i : nat) (cell : Z) : result bool :=
  row ← at_nat t i; index row cell.

(** [table[i][cell] = true] *)
Definition mark (t : seen_table) (i : nat) (cell : Z) : seen_table :=
  alter (fun row => <[Z.to_nat cell := true]> row) i t.

(** [boxRow, boxCol := row/3, col/3; box := (boxCol * 3) + boxRow] *)
Definition box_of (row col : nat) : nat := ((col / 3) * 3 + row / 3)%nat.

Record seen_tables : Type := mkSeen {
  numsSeenByRow : seen_table;
  numsSeenByCol : seen_table;
  numsSeenByBox : seen_table
}.

Definition Grid_Valid_body (row col : nat) (cell : Z) (st : seen_tables)
    : flow seen_tables bool :=
  if decide (cell = 0) then Next st
  else
    match seen (numsSeenByRow st) row cell with
    | Panic e => Abort e
    | Ok true => Return false
    | Ok false =>
        match seen (numsSeenByCol st) col cell with
        | Panic e => Abort e
        | Ok true => Return false
        | Ok false =>
            let box := box_of row col in
            match seen (numsSeenByBox st) box cell with
            | Panic e => Abort e
            | Ok true => Return false
            | Ok false =>
                Next (mkSeen (mark (numsSeenByRow st) row cell)
                             (mark (numsSeenByCol st) col cell)
                             (mark (numsSeenByBox st) box cell))
            end
        end
    end.

(** [Grid.Valid] of the seen-table draft. *)
Definition Grid_Valid (g : Grid) : result bool :=
  match
    foreach (indexed g) (fun '(row, rowCells) st =>
      foreach (indexed rowCells) (fun '(col, cell) st =>
        Grid_Valid_body row col cell st) st)
      (mkSeen no_seen no_seen no_seen)
  with
  | Next _ => Ok true
  | Return b => Ok b
  | Abort e => Panic e
  end.

(** [CellGroup.Count]: the number of non-empty cells. *)
Definition Count (c : CellGroup) : Z :=
  fold_left (fun count cell => if decide (cell ≠ 0) then count + 1 else count) c 0.

(** [Grid.RowAt] *)
Definition RowAt (g : Grid) (row : Z) : result CellGroup := index g row.

(** [Grid.ColumnAt]: [column[i] = rowCells[col]]. *)
Definition ColumnAt (g : Grid) (col : Z) : result CellGroup :=
  finish (foreach (indexed g) (fun '(i, rowCells) column =>
    match index rowCells col with
    | Panic e => Abort e
    | Ok x => Next (<[i := x]> column)
    end) zero_group).

(** [Grid.BoxAt].  Go's [/] on [int] truncates, hence [Z.quot].  The two
    loops run [r] and [c] over the box, and the source stores
    [g[row][col]] (not [g[r][c]]) in every slot. *)
Definition BoxAt (g : Grid) (row col : Z) : result CellGroup :=
  let boxRow := Z.quot row 3 in
  let boxCol := Z.quot col 3 in
  '(box, _) ← finish (foreach (seqZ (boxRow * 3) 3) (fun r st =>
    foreach (seqZ (boxCol * 3) 3) (fun c '(box, i) =>
      match rowCells ← index g row; index rowCells col with
      | Panic e => Abort e
      | Ok x => Next (<[i := x]> box, S i)
      end) st) (zero_group, 0%nat));
  Ok box.

(** [Grid.NumCounts]: [counts[cell]++] over a [[10]int]. *)
Definition NumCounts (g : Grid) : result (list Z) :=
  finish (foreach g (fun rowCells counts =>
    foreach rowCells (fun cell counts =>
      match index counts cell with
      | Panic e => Abort e
      | Ok n => Next (<[Z.to_nat cell := n + 1]> counts)
      end) counts) (replicate 10 0)).

Record Move : Type := mkMove { Row : Z; Col : Z; Value : Z }.

#[global] Instance Move_eq_dec : EqDecision Move.
Proof. solve_decision. Defined.

(** [Grid.Apply]: [applied[m.Row][m.Col] = m.Value] on a copy. *)
Definition Apply (g : Grid) (m : Move) : result Grid :=
  rowCells ← index g (Row m);
  _ ← index rowCells (Col m);
  Ok (store g (Z.to_nat (Row m)) (Z.to_nat (Col m)) (Value m)).

(** [for i := Cell(1); i <= 9; i++] *)
Definition digits : list Z := seqZ 1 9.

(** [Grid.Possibilities].  The source builds [variant] and then tests
    [g.Valid()]. *)
Definition Possibilities (g : Grid) : result (list Move) :=
  finish (foreach (indexed g) (fun '(row, rowCells) moves =>
    foreach (indexed rowCells) (fun '(col, cell) moves =>
      if decide (cell ≠ 0) then Next moves
      else
        foreach digits (fun i moves =>
          let variant := store g row col i in
          match Grid_Valid g with
          | Panic e => Abort e
          | Ok true =>
              Next (moves ++ [mkMove (Z.of_nat row) (Z.of_nat col) i])
          | Ok false => Next moves
          end) moves) moves) []).

(** [groupMoves]: [grouped[move.Row][move.Col] = append(..., move)]. *)
Definition groupMoves (moves : list Move) : result (list (list (list Move))) :=
  finish (foreach moves (fun move grouped =>
    match rowMoves ← index grouped (Row move); index rowMoves (Col move) with
    | Panic e => Abort e
    | Ok ms =>
        Next (alter (fun rowMoves => <[Z.to_nat (Col move) := ms ++ [move]]> rowMoves)
                (Z.to_nat (Row move)) grouped)
    end) (replicate 9 (replicate 9 []))).

(** [Move.Rank]: lower is better. *)
Definition Rank (m : Move) (grid : Grid) : result Z :=
  applied ← Apply grid m;
  possibilities ← Possibilities applied;
  moveGrid ← groupMoves possibilities;
  match
    foreach moveGrid (fun row s =>
      foreach row (fun moves (s : unit) =>
        if decide (length moves = 1%nat) then Return 0 else Next s) s) tt
  with
  | Abort e => Panic e
  | Return r => Ok r
  | Next _ =>
      rowGroup ← RowAt applied (Row m);
      colGroup ← ColumnAt applied (Col m);
      boxGroup ← BoxAt applied (Row m) (Col m);
      counts ← NumCounts applied;
      numCount ← index counts (Value m);
      Ok (Count rowGroup + Count colGroup + Count boxGroup + numCount)
  end.

(** ** Solving *)

(** The three nested loops of [Backtrack], innermost first, with the
    recursive call as a parameter.  [Backtrack_digit] is one iteration of
    [for i := Cell(1); i <= 9; i++]. *)
Definition Backtrack_digit (Backtrack : Grid -> result (Grid * bool))
    (grid : Grid) (row col : nat) (i : Z) (s : unit) : flow unit (Grid * bool) :=
  let variant := store grid row col i in
  match Backtrack variant with
  | Panic e => Abort e
  | Ok (filled, true) => Return (filled, true)
  | Ok (_, false) => Next s
  end.

(** One iteration of [for col, cell := range rowCells]. *)
Definition Backtrack_cell (Backtrack : Grid -> result (Grid * bool))
    (grid : Grid) (row col : nat) (cell : Z) (s : unit) : flow unit (Grid * bool) :=
  if decide (cell ≠ 0) then Next s
  else
    match foreach digits (Backtrack_digit Backtrack grid row col) s with
    | Abort e => Abort e
    | Return r => Return r
    | Next _ => Return (grid, false)
    end.

Definition Backtrack_body (Backtrack : Grid -> result (Grid * bool))
    (grid : Grid) : result (Grid * bool) :=
  match Grid_Valid grid with
  | Panic e => Panic e
  | Ok false => Ok (grid, false)
  | Ok true =>
      match
        foreach (indexed grid) (fun '(row, rowCells) s =>
          foreach (indexed rowCells) (fun '(col, cell) s =>
            Backtrack_cell Backtrack grid row col cell s) s) tt
      with
      | Abort e => Panic e
      | Return r => Ok r
      | Next _ => Ok (grid, true)
      end
  end.

(** [Backtrack] with at most [depth] nested recursive calls below the
    outermost one; a call that would nest deeper yields [DepthExceeded]. *)
Fixpoint Backtrack_depth (depth : nat) (grid : Grid) : result (Grid * bool) :=
  Backtrack_body
    (match depth with
     | O => fun _ => Panic DepthExceeded
     | S d => Backtrack_depth d
     end) grid.

(** [Backtrack]: 81 nested calls are always enough (one per cell). *)
Definition Backtrack (grid : Grid) : result (Grid * bool) :=
  Backtrack_depth 81 grid.

(** ** Hints *)

Section Hints.

(** [slices.SortFunc] of the Go standard library is not part of the
    repository: it is a parameter, known to permute its input. *)
Variable SortFunc : forall A : Type, (A -> A -> Z) -> list A -> list A.
Hypothesis SortFunc_Permutation :
  forall (A : Type) (cmp : A -> A -> Z) (l : list A), SortFunc A cmp l ≡ₚ l.

(** [Possibilities.Sort]: rank every move, sort by rank, write back. *)
Definition Sort (p : list Move) (grid : Grid) : result (list Move) :=
  ranks ← finish (foreach p (fun move ranks =>
    match Rank move grid with
    | Panic e => Abort e
    | Ok rank => Next (ranks ++ [(move, rank)])
    end) []);
  let sorted := SortFunc (Move * Z) (fun a b => snd a - snd b) ranks in
  finish (foreach (indexed sorted) (fun '(i, rank) p =>
    match at_nat p i with
    | Panic e => Abort e
    | Ok _ => Next (<[i := fst rank]> p)
    end) p).

(** The first loop of [Hint]: the cells set in [later] and not in [early]. *)
Definition Hint_moves (early later : Grid) : result (list Move) :=
  finish (foreach (indexed early) (fun '(row, rowCellsEarly) moves =>
    foreach (indexed rowCellsEarly) (fun '(col, cellEarly) moves =>
      match rowCellsLate ← at_nat later row; at_nat rowCellsLate col with
      | Panic e => Abort e
      | Ok cellLate =>
          if decide (cellEarly = 0 /\ cellLate ≠ 0)
          then Next (moves ++ [mkMove (Z.of_nat row) (Z.of_nat col) cellLate])
          else Next moves
      end) moves) []).

(** [Hint] *)
Definition Hint (early later : Grid) : result Move :=
  moves ← Hint_moves early later;
  if decide (length moves = 0%nat) then Panic NoMovesAvailable
  else
    moves ← Sort moves early;
    index moves 0.

End Hints.

(** An insertion sort, to run [Hint] on concrete grids. *)
Fixpoint insert_by {A : Type} (cmp : A -> A -> Z) (x : A) (l : list A) : list A :=
  match l with
  | [] => [x]
  | y :: l' => if decide (cmp x y <= 0) then x :: l else y :: insert_by cmp x l'
  end.

Definition insertion_sort (A : Type) (cmp : A -> A -> Z) (l : list A) : list A :=
  foldr (insert_by cmp) [] l.

(** ** Fixtures of the test files *)

Definition partial : Grid :=
  [ [5; 3; 0; 0; 7; 0; 0; 0; 0];
    [6; 0; 0; 1; 9; 5; 0; 0; 0];
    [0; 9; 8; 0; 0; 0; 0; 6; 0];
    [8; 0; 0; 0; 6; 0; 0; 0; 3];
    [4; 0; 0; 8; 0; 3; 0; 0; 1];
    [7; 0; 0; 0; 2; 0; 0; 0; 6];
    [0; 6; 0; 0; 0; 0; 2; 8; 0];
    [0; 0; 0; 4; 1; 9; 0; 0; 5];
    [0; 0; 0; 0; 8; 0; 0; 7; 9] ].

Definition filled : Grid :=
  [ [5; 3; 4; 6; 7; 8; 9; 1; 2];
    [6; 7; 2; 1; 9; 5; 3; 4; 8];
    [1; 9; 8; 3; 4; 2; 5; 6; 7];
    [8; 5; 9; 7; 6; 1; 4; 2; 3];
    [4; 2; 6; 8; 5; 3; 7; 9; 1];
    [7; 1; 3; 9; 2; 4; 8; 5; 6];
    [9; 6; 1; 5; 3; 7; 2; 8; 4];
    [2; 8; 7; 4; 1; 9; 6; 3; 5];
    [3; 4; 5; 2; 8; 6; 1; 7; 9] ].

(** ** Rendering *)

(** [strings.Builder]: [WriteString] and [WriteByte] append to the text
    written so far. *)
Definition WriteString (w s : string) : string := w +:+ s.
Definition WriteByte (w : string) (b : ascii) : string := w +:+ String b "".

Definition newline : ascii := "010"%char.

(** ['0' + byte(cell)]: byte addition wraps around at 256. *)
Definition digit_byte (cell : Z) : ascii :=
  ascii_of_N (Z.to_N ((48 + cell) mod 256)).

(** One iteration of [for col, cell := range rowCells] in [Grid.String]. *)
Definition String_cell (w : string) (col : nat) (cell : Z) : string :=
  let w := if decide (col `mod` 3 = 0 /\ 0 < col)%nat then WriteString w "# " else w in
  let w := if decide (cell = 0) then WriteByte w "_"%char
           else WriteByte w (digit_byte cell) in
  WriteByte w " "%char.

(** [Grid.String], the same in the three drafts. *)
Definition Grid_String (g : Grid) : string :=
  fold_left (fun w '(row, rowCells) =>
    let w := if decide (row `mod` 3 = 0 /\ 0 < row)%nat
             then WriteString w ("#####################" +:+ String newline "")
             else w in
    let w := fold_left (fun w '(col, cell) => String_cell w col cell)
               (indexed rowCells) w in
    WriteByte w newline) (indexed g) "".

(** ** Specification vocabulary *)

(** The cell at a position, 0 outside the grid. *)
Definition cell_at (g : Grid) (p : nat * nat) : Z := default 0 (cell g p.1 p.2).

(** The positions of row [r], of column [c] and of box [b]: box [b] has
    [boxRow = b mod 3] and [boxCol = b / 3]. *)
Definition row_positions (r : nat) : list (nat * nat) :=
  (fun c => (r, c)) <$> seq 0 9.
Definition column_positions (c : nat) : list (nat * nat) :=
  (fun r => (r, c)) <$> seq 0 9.
Definition box_positions (b : nat) : list (nat * nat) :=
  (fun k => (3 * (b `mod` 3) + k `mod` 3, 3 * (b / 3) + k / 3)%nat) <$> seq 0 9.

Definition group_cells (g : Grid) (ps : list (nat * nat)) : CellGroup :=
  cell_at g <$> ps.

(** A group has no repeated non-zero value. *)
Definition no_repeat (c : CellGroup) : Prop := NoDup (filter (fun v => v ≠ 0) c).

(** Every row, every column and every box has no repeated non-zero value. *)
Definition valid_grid (g : Grid) : Prop :=
  (forall r, (r < 9)%nat -> no_repeat (group_cells g (row_positions r))) /\
  (forall c, (c < 9)%nat -> no_repeat (group_cells g (column_positions c))) /\
  (forall b, (b < 9)%nat -> no_repeat (group_cells g (box_positions b))).

(** Two positions see each other: same row, same column or same box. *)
Definition peer (p q : nat * nat) : Prop :=
  p.1 = q.1 \/ p.2 = q.2 \/ box_of p.1 p.2 = box_of q.1 q.2.

(** No two distinct positions that see each other hold the same digit. *)
Definition conflict_free (g : Grid) : Prop :=
  forall p q v, cell g p.1 p.2 = Some v -> cell g q.1 q.2 = Some v ->
    v ≠ 0 -> p ≠ q -> ~ peer p q.

(** The cells of a grid in row-major order, with their positions. *)
Definition cells_of (g : Grid) : list (nat * nat * Z) :=
  '(row, rowCells) ← indexed g;
  (fun '(col, v) => (row, col, v)) <$> indexed rowCells.

(** The number of empty cells. *)
Definition count_empty (g : Grid) : nat :=
  sum_list ((fun rowCells : list Z => length (filter (fun v => v = 0) rowCells)) <$> g).

(** [s] agrees with [g] on every cell that is non-zero in [g]. *)
Definition extends (g s : Grid) : Prop :=
  forall row col v, cell g row col = Some v -> v ≠ 0 -> cell s row col = Some v.

(** [s] has no empty cell. *)
Definition full (s : Grid) : Prop :=
  forall row col v, cell s row col = Some v -> v ≠ 0.

(** [s] is a completion of [g]: a valid grid without empty cells that
    agrees with [g] on the cells [g] has filled. *)
Definition completion (g s : Grid) : Prop :=
  is_grid s /\ valid_grid s /\ full s /\ extends g s.

(** A move inside the grid that places 0 to 9. *)
Definition move_in_range (m : Move) : Prop :=
  0 <= Row m < 9 /\ 0 <= Col m < 9 /\ 0 <= Value m <= 9.

(** The moves [Hint] collects: one per cell that is empty in [early] and
    set in [later], in row-major order, with the value of [later]. *)
Definition hint_candidates (early later : Grid) : list Move :=
  '(row, col, cellEarly) ← cells_of early;
  match cell later row col with
  | Some cellLate =>
      if decide (cellEarly = 0 /\ cellLate ≠ 0)
      then [mkMove (Z.of_nat row) (Z.of_nat col) cellLate]
      else []
  | None => []
  end.

(** ** Proof vocabulary *)

(** [table[i][n]] read through [option]. *)
Definition lookup2 (t : list (list bool)) (i n : nat) : option bool :=
  t !! i ≫= fun row => row !! n.

Definition table_shape (t : list (list bool)) : Prop :=
  length t = 9%nat /\ Forall (fun row : list bool => length row = 10%nat) t.

(** A seen table records, per group index, the digits of the cells [P]
    scanned so far; [key] maps a position to its group index. *)
Definition table_inv (key : nat * nat -> nat) (P : list (nat * nat * Z))
    (t : list (list bool)) : Prop :=
  table_shape t /\
  forall i n, lookup2 t i n = Some true <->
    exists p, p ∈ P /\ key p.1 = i /\ p.2 = Z.of_nat n /\ p.2 ≠ 0.

Definition tables_inv (P : list (nat * nat * Z)) (st : seen_tables) : Prop :=
  table_inv fst P (numsSeenByRow st) /\
  table_inv snd P (numsSeenByCol st) /\
  table_inv (fun p => box_of p.1 p.2) P (numsSeenByBox st).

(** Two scanned cells collide. *)
Definition clash (p q : nat * nat * Z) : Prop :=
  p ≠ q /\ p.2 = q.2 /\ p.2 ≠ 0 /\ peer p.1 q.1.

Definition clash_free (P : list (nat * nat * Z)) : Prop :=
  forall p q, p ∈ P -> q ∈ P -> ~ clash p q.

Definition wf_cell (p : nat * nat * Z) : Prop :=
  (p.1.1 < 9)%nat /\ (p.1.2 < 9)%nat /\ 0 <= p.2 <= 9.

(** The 27 groups and the 81 positions. *)
Definition all_groups : list (list (nat * nat)) :=
  (row_positions <$> seq 0 9) ++ (column_positions <$> seq 0 9) ++
  (box_positions <$> seq 0 9).

Definition all_positions : list (nat * nat) :=
  r ← seq 0 9; (fun c => (r, c)) <$> seq 0 9.

#[global] Instance peer_dec p q : Decision (peer p q).
Proof. unfold peer. apply _. Defined.

#[global] Instance group_in_range_dec c : Decision (group_in_range c).
Proof. unfold group_in_range. apply _. Defined.

#[global] Instance is_grid_dec g : Decision (is_grid g).
Proof. unfold is_grid. apply _. Defined.

#[global] Instance grid_shape_dec g : Decision (grid_shape g).
Proof. unfold grid_shape. apply _. Defined.

(** The byte [Grid.String] writes for a cell. *)
Definition render_cell (cell : Z) : ascii :=
  if decide (cell = 0) then "_"%char else digit_byte cell.

(** The text of the cells from column [col] on, and of the rows from row
    [row] on, by recursion on the list instead of a builder. *)
Fixpoint row_text (col : nat) (cells : list Z) : string :=
  match cells with
  | [] => ""
  | cell :: cells =>
      (if decide (col `mod` 3 = 0 /\ 0 < col)%nat then "# " else "") +:+
      String (render_cell cell) (String " "%char (row_text (S col) cells))
  end.

Fixpoint grid_text (row : nat) (g : Grid) : string :=
  match g with
  | [] => ""
  | rowCells :: g =>
      (if decide (row `mod` 3 = 0 /\ 0 < row)%nat
       then "#####################" +:+ String newline "" else "") +:+
      row_text 0 rowCells +:+ String newline (grid_text (S row) g)
  end.

(** The characters of a rendered grid of the data model. *)
Definition alphabet : list ascii :=
  [ "_"; "1"; "2"; "3"; "4"; "5"; "6"; "7"; "8"; "9"; " "; "#"; newline ]%char.

(** Every digit at every empty cell, in row-major order and ascending
    digits. *)
Definition fill_moves (g : Grid) : list Move :=
  '(row, col, cell) ← cells_of g;
  if decide (cell ≠ 0) then []
  else i ← digits; [mkMove (Z.of_nat row) (Z.of_nat col) i].

(** A move targets the cell at ([row], [col]). *)
Definition targets (row col : nat) (m : Move) : Prop :=
  Row m = Z.of_nat row /\ Col m = Z.of_nat col.

#[global] Instance targets_dec row col m : Decision (targets row col m).
Proof. unfold targets. apply _. Defined.

(** A move inside the grid. *)
Definition on_grid (m : Move) : Prop := 0 <= Row m < 9 /\ 0 <= Col m < 9.




(** [Backtrack] of the group based draft: the same loops around the group
    based [Grid.Valid]. *)
Definition Backtrack_groups_body (Backtrack : Grid -> result (Grid * bool))
    (grid : Grid) : result (Grid * bool) :=
  match Grid_Valid_groups grid with
  | Panic e => Panic e
  | Ok false => Ok (grid, false)
  | Ok true =>
      match
        foreach (indexed grid) (fun '(row, rowCells) s =>
          foreach (indexed rowCells) (fun '(col, cell) s =>
            Backtrack_cell Backtrack grid row col cell s) s) tt
      with
      | Abort e => Panic e
      | Return r => Ok r
      | Next _ => Ok (grid, true)
      end
  end.

Fixpoint Backtrack_groups_depth (depth : nat) (grid : Grid) : result (Grid * bool) :=
  Backtrack_groups_body
    (match depth with
     | O => fun _ => Panic DepthExceeded
     | S d => Backtrack_groups_depth d
     end) grid.

Definition Backtrack_groups (grid : Grid) : result (Grid * bool) :=
  Backtrack_groups_depth 81 grid.

(** * Proofs *)

(** ** Loops *)

Lemma foreach_app {A S R} (l1 l2 : list A) (body : A -> S -> flow S R) s :
  foreach (l1 ++ l2) body s =
  match foreach l1 body s with
  | Next s' => foreach l2 body s'
  | Return r => Return r
  | Abort e => Abort e
  end.
Proof.
  revert s. induction l1 as [|x l1 IH]; intros s; simpl; [done|].
  destruct (body x s); auto.
Qed.

Lemma foreach_fmap {A B S R} (f : A -> B) (l : list A) (body : B -> S -> flow S R) s :
  foreach (f <$> l) body s = foreach l (fun x => body (f x)) s.
Proof.
  revert s. induction l as [|x l IH]; intros s; simpl; [done|].
  destruct (body (f x) s); auto.
Qed.

Lemma foreach_bind {A B S R} (f : A -> list B) (l : list A)
    (body : B -> S -> flow S R) s :
  foreach (l ≫= f) body s = foreach l (fun x s => foreach (f x) body s) s.
Proof.
  revert s. induction l as [|x l IH]; intros s; [done|].
  change ((x :: l) ≫= f) with (f x ++ (l ≫= f)).
  rewrite foreach_app. simpl. destruct (foreach (f x) body s); auto.
Qed.

Lemma foreach_ext {A S R} (l : list A) (body1 body2 : A -> S -> flow S R) s :
  (forall x s, x ∈ l -> body1 x s = body2 x s) ->
  foreach l body1 s = foreach l body2 s.
Proof.
  revert s. induction l as [|x l IH]; intros s H; simpl; [done|].
  rewrite (H x s) by left. destruct (body2 x s); auto.
  apply IH. intros. apply H. by right.
Qed.

(** The nested [range] loops over a grid are one loop over its cells. *)
Lemma foreach_cells {S R} (g : Grid) (body : nat -> nat -> Z -> S -> flow S R) s :
  foreach (indexed g) (fun '(row, rowCells) s =>
    foreach (indexed rowCells) (fun '(col, v) s => body row col v s) s) s =
  foreach (cells_of g) (fun '(row, col, v) s => body row col v s) s.
Proof.
  unfold cells_of. rewrite foreach_bind. apply foreach_ext.
  intros [row rowCells] s' _. rewrite foreach_fmap.
  apply foreach_ext. by intros [col v] s'' _.
Qed.

Lemma elem_of_indexed {A} (l : list A) i x : (i, x) ∈ indexed l ↔ l !! i = Some x.
Proof.
  unfold indexed. rewrite elem_of_lookup_imap. split.
  - intros (j & y & [= -> ->] & ?). done.
  - intros ?. eauto.
Qed.

Lemma NoDup_indexed {A} (l : list A) : NoDup (indexed l).
Proof.
  apply NoDup_alt. intros i j [k x]. unfold indexed.
  rewrite !list_lookup_imap. intros Hi Hj.
  destruct (l !! i); destruct (l !! j); simplify_eq/=. done.
Qed.

Lemma elem_of_cells_of (g : Grid) r c v :
  (r, c, v) ∈ cells_of g ↔ cell g r c = Some v.
Proof.
  unfold cells_of, cell. rewrite list_elem_of_bind. split.
  - intros ([row rowCells] & Hin & Hrow).
    apply list_elem_of_fmap in Hin as ([col v'] & [= -> -> ->] & Hin).
    apply elem_of_indexed in Hin, Hrow. by rewrite Hrow.
  - intros H. destruct (g !! r) as [rowCells|] eqn:Hr; [|done]. simpl in H.
    exists (r, rowCells). split; [|by apply elem_of_indexed].
    apply list_elem_of_fmap. exists (c, v). split; [done|by apply elem_of_indexed].
Qed.

Lemma NoDup_cells_of (g : Grid) : NoDup (cells_of g).
Proof.
  unfold cells_of. apply NoDup_bind; [| |apply NoDup_indexed].
  - intros [r1 row1] [r2 row2] [[r c] v] H1 H2 Hy1 Hy2.
    apply list_elem_of_fmap in Hy1 as ([c1 v1] & [= -> -> ->] & Hy1).
    apply list_elem_of_fmap in Hy2 as ([c2 v2] & [= -> -> ->] & Hy2).
    apply elem_of_indexed in H1, H2. congruence.
  - intros [r row] _. apply NoDup_fmap_2; [|apply NoDup_indexed].
    intros [c1 v1] [c2 v2]. congruence.
Qed.

(** ** The seen-table scan *)

Lemma table_shape_no_seen : table_shape no_seen.
Proof. split; [done|]. unfold no_seen. apply Forall_replicate. done. Qed.

Lemma lookup2_no_seen i n : lookup2 no_seen i n ≠ Some true.
Proof.
  unfold lookup2, no_seen. intros H.
  destruct (replicate 9 (replicate 10 false) !! i) as [row|] eqn:Hrow; [|done].
  apply lookup_replicate in Hrow as [-> _].
  change (replicate 10 false !! n = Some true) in H.
  by apply lookup_replicate in H as [? _].
Qed.

Lemma table_shape_mark t i v : table_shape t -> table_shape (mark t i v).
Proof.
  intros [Hlen Hrows]. split.
  - unfold mark. by rewrite length_alter.
  - unfold mark. apply Forall_alter; [done|].
    intros row _ Hrow. by rewrite length_insert.
Qed.

Lemma table_shape_lookup t i :
  table_shape t -> (i < 9)%nat -> exists row, t !! i = Some row /\ length row = 10%nat.
Proof.
  intros [Hlen Hrows] Hi.
  destruct (lookup_lt_is_Some_2 t i) as [row Hrow]; [lia|].
  exists row. split; [done|]. eapply Forall_lookup_1 in Hrows; eauto.
Qed.

Lemma lookup2_mark t i v i' n' :
  table_shape t -> (i < 9)%nat -> 0 <= v <= 9 ->
  lookup2 (mark t i v) i' n' = Some true <->
  (i = i' /\ Z.to_nat v = n') \/ lookup2 t i' n' = Some true.
Proof.
  intros Hshape Hi Hv. unfold lookup2, mark.
  rewrite list_lookup_alter. case_decide as Hii; [subst i'|naive_solver].
  destruct (table_shape_lookup t i Hshape Hi) as (row & -> & Hlen). simpl.
  rewrite list_lookup_insert. case_decide as Hn; [naive_solver|].
  split; [by right|]. intros [[_ <-]|?]; [|done]. exfalso. apply Hn. lia.
Qed.

Lemma seen_lookup2 t i v :
  table_shape t -> (i < 9)%nat -> 0 <= v <= 9 ->
  exists b, seen t i v = Ok b /\ lookup2 t i (Z.to_nat v) = Some b.
Proof.
  intros Hshape Hi Hv. unfold seen, at_nat, lookup2.
  destruct (table_shape_lookup t i Hshape Hi) as (row & -> & Hlen). simpl.
  unfold index. rewrite decide_True by lia.
  destruct (lookup_lt_is_Some_2 row (Z.to_nat v)) as [b Hb]; [lia|].
  rewrite Hb. eauto.
Qed.

Lemma table_inv_empty key : table_inv key [] no_seen.
Proof.
  split; [apply table_shape_no_seen|]. intros i n. split.
  - intros H. by apply lookup2_no_seen in H.
  - intros (p & Hp & _). by apply elem_of_nil in Hp.
Qed.

(** A cell with value 0 leaves the tables as they are. *)
Lemma table_inv_skip key P t q :
  q.2 = 0 -> table_inv key P t -> table_inv key (P ++ [q]) t.
Proof.
  intros Hq [Hshape Hinv]. split; [done|]. intros i n. rewrite Hinv.
  split; intros (p & Hp & ?); exists p.
  - split; [|done]. apply elem_of_app. by left.
  - split; [|done]. apply elem_of_app in Hp as [?|Hp]; [done|].
    apply list_elem_of_singleton in Hp. subst p. naive_solver.
Qed.

Lemma table_inv_mark key P t q :
  (key q.1 < 9)%nat -> 0 <= q.2 <= 9 -> q.2 ≠ 0 ->
  table_inv key P t -> table_inv key (P ++ [q]) (mark t (key q.1) q.2).
Proof.
  intros Hk Hv Hnz [Hshape Hinv]. split; [by apply table_shape_mark|].
  intros i n. rewrite lookup2_mark by done. rewrite Hinv. split.
  - intros [[<- <-]|(p & Hp & ?)].
    + exists q. split; [apply elem_of_app; right; by apply list_elem_of_singleton|].
      split; [done|]. split; [lia|done].
    + exists p. split; [apply elem_of_app; by left|done].
  - intros (p & Hp & Hkey & Hval & Hpz).
    apply elem_of_app in Hp as [Hp|Hp].
    + right. eauto.
    + apply list_elem_of_singleton in Hp. subst p. left. split; [done|lia].
Qed.

(** What a look-up in a table that satisfies its invariant answers. *)
Lemma seen_table_inv key P t i v :
  table_inv key P t -> (i < 9)%nat -> 0 <= v <= 9 -> v ≠ 0 ->
  exists b, seen t i v = Ok b /\
    (b = true <-> exists p, p ∈ P /\ key p.1 = i /\ p.2 = v).
Proof.
  intros [Hshape Hinv] Hi Hv Hnz.
  destruct (seen_lookup2 t i v Hshape Hi Hv) as (b & Hseen & Hb).
  exists b. split; [done|]. split.
  - intros ->. apply Hinv in Hb as (p & Hp & Hkey & Hval & _).
    exists p. split; [done|]. split; [done|]. lia.
  - intros (p & Hp & Hkey & Hval).
    assert (lookup2 t i (Z.to_nat v) = Some true) as Ht; [|congruence].
    apply Hinv. exists p. split; [done|]. split; [done|]. split; [lia|congruence].
Qed.

Lemma box_of_lt r c : (r < 9)%nat -> (c < 9)%nat -> (box_of r c < 9)%nat.
Proof.
  intros Hr Hc. unfold box_of.
  assert (c / 3 < 3)%nat by (apply Nat.Div0.div_lt_upper_bound; lia).
  assert (r / 3 < 3)%nat by (apply Nat.Div0.div_lt_upper_bound; lia).
  lia.
Qed.

Lemma clash_sym p q : clash p q -> clash q p.
Proof.
  intros (Hne & Hv & Hnz & Hpeer). repeat split; [congruence..|].
  unfold peer in *. naive_solver.
Qed.

Lemma clash_free_snoc P q :
  clash_free P -> (forall p, p ∈ P -> ~ clash p q) -> clash_free (P ++ [q]).
Proof.
  intros HP Hq p1 p2 H1 H2 Hc.
  apply elem_of_app in H1 as [H1|H1]; apply elem_of_app in H2 as [H2|H2];
    try apply list_elem_of_singleton in H1; try apply list_elem_of_singleton in H2;
    subst.
  - exact (HP _ _ H1 H2 Hc).
  - exact (Hq _ H1 Hc).
  - exact (Hq _ H2 (clash_sym _ _ Hc)).
  - by destruct Hc.
Qed.

Lemma scan_spec ps : forall P st,
  tables_inv P st -> Forall wf_cell ps -> NoDup (P ++ ps) ->
  match foreach ps (fun '(r, c, v) st => Grid_Valid_body r c v st) st with
  | Next st' => tables_inv (P ++ ps) st' /\ (clash_free P -> clash_free (P ++ ps))
  | Return b => b = false /\ ~ clash_free (P ++ ps)
  | Abort _ => False
  end.
Proof.
  induction ps as [|q ps IH]; intros P st Hinv Hwf Hnd.
  { simpl. rewrite app_nil_r. done. }
  apply Forall_cons_1 in Hwf as [(Hr & Hc & Hv) Hwf].
  assert (q ∉ P) as HqP.
  { apply NoDup_app in Hnd as (_ & Hdisj & _). intros HqP.
    apply (Hdisj q HqP). left. }
  assert (NoDup ((P ++ [q]) ++ ps)) as Hnd' by (by rewrite <- app_assoc).
  destruct q as [[r c] v]. simpl in Hr, Hc, Hv.
  destruct Hinv as (Hrow & Hcol & Hbox).
  simpl. unfold Grid_Valid_body at 1. case_decide as Hz.
  { (* an empty cell *)
    assert (tables_inv (P ++ [(r, c, v)]) st) as Hinv'.
    { split; [|split]; apply table_inv_skip; done. }
    assert (clash_free P -> clash_free (P ++ [(r, c, v)])) as Hstep.
    { intros HP. apply clash_free_snoc; [done|].
      intros p _ (_ & Hpv & Hpz & _). simpl in Hpv. congruence. }
    specialize (IH _ _ Hinv' Hwf Hnd'). rewrite <- app_assoc in IH. simpl in IH.
    destruct (foreach ps _ st) as [st'|b|e]; [|done..].
    destruct IH as [? Hfree]. split; [done|]. auto. }
  (* a filled cell: a collision is a clash with a cell scanned before *)
  assert (forall (key : nat * nat -> nat) (p : nat * nat * Z),
            p ∈ P -> key p.1 = key (r, c) -> p.2 = v ->
            (forall p q : nat * nat, key p = key q -> peer p q) ->
            ~ clash_free (P ++ (r, c, v) :: ps)) as Hcollide.
  { intros key p Hp Hkey Hpv Hpeer Hfree.
    apply (Hfree p (r, c, v)).
    - apply elem_of_app. by left.
    - apply elem_of_app. right. left.
    - repeat split; simpl; [congruence|done|congruence|by apply Hpeer]. }
  pose proof (box_of_lt r c Hr Hc) as Hb.
  destruct (seen_table_inv fst P _ r v Hrow Hr Hv Hz) as (b1 & -> & Hb1).
  destruct b1.
  { destruct Hb1 as [(p & Hp & Hkey & Hpv) _]; [done|]. split; [done|].
    apply (Hcollide fst p); auto. intros ???. by left. }
  destruct (seen_table_inv snd P _ c v Hcol Hc Hv Hz) as (b2 & -> & Hb2).
  destruct b2.
  { destruct Hb2 as [(p & Hp & Hkey & Hpv) _]; [done|]. split; [done|].
    apply (Hcollide snd p); auto. intros ???. right. by left. }
  destruct (seen_table_inv _ P _ (box_of r c) v Hbox Hb Hv Hz) as (b3 & -> & Hb3).
  destruct b3.
  { destruct Hb3 as [(p & Hp & Hkey & Hpv) _]; [done|]. split; [done|].
    apply (Hcollide (fun p => box_of p.1 p.2) p); auto. intros ???. right. by right. }
  assert (clash_free P -> clash_free (P ++ [(r, c, v)])) as Hstep.
  { intros HP. apply clash_free_snoc; [done|].
    intros p Hp (_ & Hpv & _ & [Hk|[Hk|Hk]]); simpl in *.
    - destruct Hb1 as [_ Hb1]. discriminate Hb1. eauto.
    - destruct Hb2 as [_ Hb2]. discriminate Hb2. eauto.
    - destruct Hb3 as [_ Hb3]. discriminate Hb3. eauto. }
  assert (tables_inv (P ++ [(r, c, v)])
    (mkSeen (mark (numsSeenByRow st) r v) (mark (numsSeenByCol st) c v)
            (mark (numsSeenByBox st) (box_of r c) v))) as Hinv'.
  { split; [|split]; simpl.
    - by apply (table_inv_mark fst P _ (r, c, v)).
    - by apply (table_inv_mark snd P _ (r, c, v)).
    - by apply (table_inv_mark (fun p => box_of p.1 p.2) P _ (r, c, v)). }
  specialize (IH _ _ Hinv' Hwf Hnd'). rewrite <- app_assoc in IH. simpl in IH.
  destruct (foreach ps _ _) as [st'|b|e]; [|done..].
  destruct IH as [? Hfree]. split; [done|]. auto.
Qed.

(** ** Grids of the data model *)

Lemma is_grid_row g r rowCells :
  is_grid g -> g !! r = Some rowCells ->
  (r < 9)%nat /\ length rowCells = 9%nat /\ group_in_range rowCells.
Proof.
  intros [Hlen Hrows] Hr. split.
  - apply lookup_lt_Some in Hr. lia.
  - by eapply Forall_lookup_1 in Hrows.
Qed.

Lemma is_grid_cell g r c v :
  is_grid g -> cell g r c = Some v -> (r < 9)%nat /\ (c < 9)%nat /\ 0 <= v <= 9.
Proof.
  intros Hg Hcell. unfold cell in Hcell.
  destruct (g !! r) as [rowCells|] eqn:Hr; [|done]. simpl in Hcell.
  destruct (is_grid_row g r rowCells Hg Hr) as (? & Hlen & Hrange).
  split; [done|]. split.
  - apply lookup_lt_Some in Hcell. lia.
  - by eapply Forall_lookup_1 in Hrange.
Qed.

Lemma is_grid_cell_Some g r c :
  is_grid g -> (r < 9)%nat -> (c < 9)%nat -> exists v, cell g r c = Some v.
Proof.
  intros Hg Hr Hc. unfold cell.
  destruct (lookup_lt_is_Some_2 g r) as [rowCells Hrow]; [destruct Hg; lia|].
  rewrite Hrow. simpl.
  destruct (is_grid_row g r rowCells Hg Hrow) as (_ & Hlen & _).
  destruct (lookup_lt_is_Some_2 rowCells c) as [v Hv]; [lia|]. eauto.
Qed.

Lemma is_grid_wf_cells g : is_grid g -> Forall wf_cell (cells_of g).
Proof.
  intros Hg. apply Forall_forall. intros [[r c] v] Hin.
  apply elem_of_cells_of in Hin. by apply (is_grid_cell g).
Qed.

Lemma clash_free_cells_of g : clash_free (cells_of g) <-> conflict_free g.
Proof.
  split.
  - intros Hfree [r1 c1] [r2 c2] v H1 H2 Hv Hne Hpeer. simpl in *.
    apply (Hfree (r1, c1, v) (r2, c2, v)); [by apply elem_of_cells_of..|].
    repeat split; simpl; [congruence|done..].
  - intros Hfree [p v] [q w] Hp Hq (Hne & Hv & Hnz & Hpeer). simpl in *. subst w.
    destruct p as [r1 c1], q as [r2 c2]. apply elem_of_cells_of in Hp, Hq.
    apply (Hfree (r1, c1) (r2, c2) v); [done..|congruence|done].
Qed.

(** The seen-table check decides [conflict_free] and never panics on a
    grid of the data model. *)
Lemma Grid_Valid_conflict_free g :
  is_grid g ->
  (Grid_Valid g = Ok true /\ conflict_free g) \/
  (Grid_Valid g = Ok false /\ ~ conflict_free g).
Proof.
  intros Hg. unfold Grid_Valid.
  rewrite (foreach_cells g Grid_Valid_body).
  pose proof (scan_spec (cells_of g) [] (mkSeen no_seen no_seen no_seen)) as H.
  simpl in H. rewrite <- clash_free_cells_of.
  destruct (foreach (cells_of g) _ _) as [st'|b|e].
  - left. split; [done|]. apply H.
    + split; [|split]; apply table_inv_empty.
    + by apply is_grid_wf_cells.
    + apply NoDup_cells_of.
    + intros p q Hp. by apply elem_of_nil in Hp.
  - right. destruct H as [-> H]; [| | |done].
    + split; [|split]; apply table_inv_empty.
    + by apply is_grid_wf_cells.
    + apply NoDup_cells_of.
  - exfalso. apply H.
    + split; [|split]; apply table_inv_empty.
    + by apply is_grid_wf_cells.
    + apply NoDup_cells_of.
Qed.

(** ** [CellGroup.Valid] *)

Lemma CellGroup_scan c : forall (seenl : list Z) (numSeen : list bool),
  length numSeen = 10%nat ->
  (forall n, numSeen !! n = Some true <-> Z.of_nat n ∈ seenl) ->
  group_in_range c ->
  match foreach c CellGroup_Valid_body numSeen with
  | Next _ => NoDup (filter (fun v => v ≠ 0) c ++ seenl) \/ ~ NoDup seenl
  | Return b => b = false /\ ~ NoDup (filter (fun v => v ≠ 0) c ++ seenl)
  | Abort _ => False
  end.
Proof.
  induction c as [|x c IH]; intros seenl numSeen Hlen Hseen Hrange.
  { simpl. destruct (decide (NoDup seenl)); auto. }
  apply Forall_cons_1 in Hrange as [Hx Hrange].
  simpl. unfold CellGroup_Valid_body at 1. case_decide as Hz.
  { rewrite filter_cons_False by naive_solver. by apply IH. }
  rewrite filter_cons_True by done.
  unfold index. rewrite decide_True by lia.
  destruct (lookup_lt_is_Some_2 numSeen (Z.to_nat x)) as [b Hb]; [lia|].
  rewrite Hb. destruct b.
  - split; [done|]. intros Hnd. apply NoDup_cons in Hnd as [Hnotin _].
    apply Hnotin. apply elem_of_app. right.
    apply Hseen in Hb. by rewrite Z2Nat.id in Hb by lia.
  - assert (x ∉ seenl) as Hnotin.
    { intros Hin. assert (numSeen !! Z.to_nat x = Some true); [|congruence].
      apply Hseen. by rewrite Z2Nat.id by lia. }
    specialize (IH (x :: seenl) (<[Z.to_nat x := true]> numSeen)).
    assert (forall l : list Z, NoDup (l ++ x :: seenl) <-> NoDup (x :: l ++ seenl)) as Hmid.
    { intros l. by rewrite <- Permutation_middle. }
    destruct (foreach c _ _) as [s'|b|e].
    + destruct IH as [IH|IH]; [by rewrite length_insert| |done| |].
      * intros n. rewrite list_lookup_insert, elem_of_cons.
        case_decide as Hn.
        -- destruct Hn as [<- _]. split; [|done]. intros _. left. lia.
        -- rewrite Hseen. split; [by right|]. intros [Heq|?]; [|done].
           exfalso. apply Hn. split; lia.
      * left. by apply Hmid.
      * right. intros Hnd. apply IH. by apply NoDup_cons.
    + destruct IH as [-> IH]; [by rewrite length_insert| |done|].
      * intros n. rewrite list_lookup_insert, elem_of_cons.
        case_decide as Hn.
        -- destruct Hn as [<- _]. split; [|done]. intros _. left. lia.
        -- rewrite Hseen. split; [by right|]. intros [Heq|?]; [|done].
           exfalso. apply Hn. split; lia.
      * split; [done|]. intros Hnd. apply IH. by apply Hmid.
    + apply IH; [by rewrite length_insert| |done].
      intros n. rewrite list_lookup_insert, elem_of_cons.
      case_decide as Hn.
      * destruct Hn as [<- _]. split; [|done]. intros _. left. lia.
      * rewrite Hseen. split; [by right|]. intros [Heq|?]; [|done].
        exfalso. apply Hn. split; lia.
Qed.

Lemma CellGroup_Valid_no_repeat c :
  group_in_range c ->
  (CellGroup_Valid c = Ok true /\ no_repeat c) \/
  (CellGroup_Valid c = Ok false /\ ~ no_repeat c).
Proof.
  intros Hrange. unfold CellGroup_Valid, no_repeat.
  pose proof (CellGroup_scan c [] (replicate 10 false)) as H.
  rewrite app_nil_r in H.
  assert (forall n, replicate 10 false !! n = Some true <-> Z.of_nat n ∈ @nil Z) as Hinit.
  { intros n. split.
    - intros Hn. by apply lookup_replicate in Hn as [? _].
    - intros Hn. by apply elem_of_nil in Hn. }
  specialize (H eq_refl Hinit Hrange).
  destruct (foreach c _ _) as [s'|b|e].
  - left. split; [done|]. destruct H as [H|H]; [done|]. destruct H. constructor.
  - right. by destruct H as [-> H].
  - done.
Qed.

(** ** Groups of positions *)

Lemma is_grid_shape g : is_grid g -> grid_shape g.
Proof.
  intros [Hlen Hrows]. split; [done|].
  eapply Forall_impl; [exact Hrows|]. by intros row [? _].
Qed.

Lemma list_nine {A} (l : list A) :
  length l = 9%nat ->
  exists a b c d e f g h i, l = [a; b; c; d; e; f; g; h; i].
Proof.
  intros H. do 9 (destruct l as [|? l]; [done|]). destruct l; [|done].
  by do 9 eexists.
Qed.

Ltac explode_grid g Hshape :=
  destruct Hshape as [?Hlen ?Hrows];
  match goal with
  | H : length g = 9%nat |- _ =>
      destruct (list_nine g H) as (?r & ?r & ?r & ?r & ?r & ?r & ?r & ?r & ?r & ->);
      clear H
  end;
  repeat match goal with
  | H : Forall _ (_ :: _) |- _ => apply Forall_cons_1 in H as [? H]
  end;
  repeat match goal with
  | H : length ?row = 9%nat |- _ =>
      destruct (list_nine row H) as (?x & ?x & ?x & ?x & ?x & ?x & ?x & ?x & ?x & ->);
      clear H
  end.

(** The derived groups of the group based draft are the groups of the
    specification, in the same order. *)
Lemma Rows_groups g :
  grid_shape g -> Rows g = (fun r => group_cells g (row_positions r)) <$> seq 0 9.
Proof. intros Hshape. explode_grid g Hshape. reflexivity. Qed.

Lemma Columns_groups g :
  grid_shape g -> Columns g = (fun c => group_cells g (column_positions c)) <$> seq 0 9.
Proof. intros Hshape. explode_grid g Hshape. reflexivity. Qed.

Lemma Boxes_groups g :
  grid_shape g -> Boxes g = (fun b => group_cells g (box_positions b)) <$> seq 0 9.
Proof. intros Hshape. explode_grid g Hshape. reflexivity. Qed.

Lemma no_repeat_fmap {A} (f : A -> Z) (l : list A) :
  NoDup l ->
  no_repeat (f <$> l) <->
  forall x y, x ∈ l -> y ∈ l -> x ≠ y -> f x = f y -> f x = 0.
Proof.
  unfold no_repeat. induction l as [|a l IH]; intros Hnd.
  { split; [|constructor]. intros _ x y Hx. by apply elem_of_nil in Hx. }
  apply NoDup_cons in Hnd as [Ha Hnd]. specialize (IH Hnd).
  rewrite fmap_cons. destruct (decide (f a = 0)) as [Hz|Hnz].
  - rewrite filter_cons_False by naive_solver. rewrite IH. split.
    + intros H x y Hx Hy Hne Heq.
      apply elem_of_cons in Hx as [->|Hx]; [done|].
      apply elem_of_cons in Hy as [->|Hy]; [congruence|]. eauto.
    + intros H x y Hx Hy. apply H; by right.
  - rewrite filter_cons_True by done. rewrite NoDup_cons, IH. split.
    + intros [Hnotin H] x y Hx Hy Hne Heq.
      apply elem_of_cons in Hx as [->|Hx]; apply elem_of_cons in Hy as [->|Hy].
      * done.
      * exfalso. apply Hnotin. apply list_elem_of_filter. split; [done|].
        rewrite Heq. by apply list_elem_of_fmap_2.
      * exfalso. apply Hnotin. apply list_elem_of_filter. split; [done|].
        rewrite <- Heq. by apply list_elem_of_fmap_2.
      * eauto.
    + intros H. split.
      * intros Hin. apply list_elem_of_filter in Hin as [_ Hin].
        apply list_elem_of_fmap in Hin as (y & Heq & Hy).
        apply Hnz. apply (H a y); [by left|by right| |done]. congruence.
      * intros x y Hx Hy. apply H; by right.
Qed.

(** Facts about the fixed 9x9 geometry, checked by evaluation. *)
Lemma all_groups_NoDup : Forall NoDup all_groups.
Proof. apply (bool_decide_unpack _). by vm_compute. Qed.

Lemma all_groups_positions :
  Forall (fun grp => Forall (fun p => p ∈ all_positions) grp) all_groups.
Proof. apply (bool_decide_unpack _). by vm_compute. Qed.

Lemma box_positions_box_of :
  Forall (fun p => p ∈ box_positions (box_of p.1 p.2)) all_positions.
Proof. apply (bool_decide_unpack _). by vm_compute. Qed.

Lemma box_of_box_positions :
  Forall (fun b => Forall (fun p => box_of p.1 p.2 = b) (box_positions b)) (seq 0 9).
Proof. apply (bool_decide_unpack _). by vm_compute. Qed.

Lemma elem_of_all_positions r c :
  (r, c) ∈ all_positions <-> (r < 9)%nat /\ (c < 9)%nat.
Proof.
  unfold all_positions. rewrite list_elem_of_bind. split.
  - intros (r' & Hc & Hr). apply list_elem_of_fmap in Hc as (c' & [= -> ->] & Hc).
    apply elem_of_seq in Hc, Hr. lia.
  - intros [Hr Hc]. exists r. split; [|apply elem_of_seq; lia].
    apply list_elem_of_fmap. exists c. split; [done|]. apply elem_of_seq. lia.
Qed.

Lemma valid_grid_all_groups g :
  valid_grid g <-> Forall (fun grp => no_repeat (group_cells g grp)) all_groups.
Proof.
  unfold valid_grid, all_groups.
  rewrite !Forall_app, !Forall_fmap, !Forall_seq. simpl.
  split; intros (H1 & H2 & H3); (split; [|split]); intros; (apply H1 || apply H2 || apply H3); lia.
Qed.

Lemma cell_cell_at g p v : cell g p.1 p.2 = Some v -> cell_at g p = v.
Proof. unfold cell_at. by intros ->. Qed.

Lemma elem_of_all_groups grp :
  grp ∈ all_groups <->
  exists i, (i < 9)%nat /\
    (grp = row_positions i \/ grp = column_positions i \/ grp = box_positions i).
Proof.
  unfold all_groups. rewrite !elem_of_app, !list_elem_of_fmap. split.
  - intros [(i & -> & Hi)|[(i & -> & Hi)|(i & -> & Hi)]];
      apply elem_of_seq in Hi; exists i; (split; [lia|tauto]).
  - intros (i & Hi & [-> | [-> | ->]]); [left|right; left|right; right];
      exists i; (split; [done|apply elem_of_seq; lia]).
Qed.

Lemma elem_of_row_positions r p :
  p ∈ row_positions r <-> p.1 = r /\ (p.2 < 9)%nat.
Proof.
  destruct p as [r' c']. unfold row_positions. rewrite list_elem_of_fmap. split.
  - intros (c & [= -> ->] & Hc). apply elem_of_seq in Hc. simpl. lia.
  - intros [Hr Hc]. simpl in Hr, Hc. subst r'.
    exists c'. split; [done|]. apply elem_of_seq. lia.
Qed.

Lemma elem_of_column_positions c p :
  p ∈ column_positions c <-> p.2 = c /\ (p.1 < 9)%nat.
Proof.
  destruct p as [r' c']. unfold column_positions. rewrite list_elem_of_fmap. split.
  - intros (r & [= -> ->] & Hr). apply elem_of_seq in Hr. simpl. lia.
  - intros [Hc Hr]. simpl in Hr, Hc. subst c'.
    exists r'. split; [done|]. apply elem_of_seq. lia.
Qed.

(** Two positions of the grid see each other exactly when one of the 27
    groups holds both. *)
Lemma peer_groups p q :
  p ∈ all_positions -> q ∈ all_positions ->
  peer p q <-> exists grp, grp ∈ all_groups /\ p ∈ grp /\ q ∈ grp.
Proof.
  intros Hp Hq. pose proof box_positions_box_of as Hbox.
  rewrite Forall_forall in Hbox.
  pose proof (Hbox p Hp) as Hpbox. pose proof (Hbox q Hq) as Hqbox.
  destruct p as [r1 c1], q as [r2 c2].
  apply elem_of_all_positions in Hp as [Hr1 Hc1], Hq as [Hr2 Hc2].
  simpl in Hpbox, Hqbox. unfold peer. simpl. split.
  - intros [Heq|[Heq|Heq]].
    + exists (row_positions r1). split; [apply elem_of_all_groups; eauto|].
      rewrite !elem_of_row_positions. simpl. lia.
    + exists (column_positions c1). split; [apply elem_of_all_groups; eauto|].
      rewrite !elem_of_column_positions. simpl. lia.
    + exists (box_positions (box_of r1 c1)). split.
      * apply elem_of_all_groups. exists (box_of r1 c1).
        split; [by apply box_of_lt|tauto].
      * split; [done|]. by rewrite Heq.
  - intros (grp & Hgrp & Hpin & Hqin).
    apply elem_of_all_groups in Hgrp as (i & Hi & [-> | [-> | ->]]).
    + apply elem_of_row_positions in Hpin, Hqin. simpl in *. lia.
    + apply elem_of_column_positions in Hpin, Hqin. simpl in *. lia.
    + pose proof box_of_box_positions as Hall. rewrite Forall_forall in Hall.
      assert (i ∈ seq 0 9) as Hseq by (apply elem_of_seq; lia).
      specialize (Hall i Hseq). rewrite Forall_forall in Hall.
      apply Hall in Hpin, Hqin. simpl in *. right. right. congruence.
Qed.

(** On a grid of the data model the two readings of validity agree. *)
Lemma valid_grid_conflict_free g : is_grid g -> valid_grid g <-> conflict_free g.
Proof.
  intros Hg. rewrite valid_grid_all_groups, Forall_forall. split.
  - intros Hvalid p q v Hp Hq Hv Hne Hpeer.
    destruct p as [r1 c1], q as [r2 c2].
    destruct (is_grid_cell g _ _ _ Hg Hp) as (? & ? & _).
    destruct (is_grid_cell g _ _ _ Hg Hq) as (? & ? & _).
    apply peer_groups in Hpeer as (grp & Hgrp & Hpin & Hqin);
      [|by apply elem_of_all_positions..].
    pose proof all_groups_NoDup as Hnd. rewrite Forall_forall in Hnd.
    specialize (Hvalid grp Hgrp). unfold group_cells in Hvalid.
    rewrite no_repeat_fmap in Hvalid by auto.
    apply Hv. rewrite <- (cell_cell_at g (r1, c1) v Hp).
    apply (Hvalid (r1, c1) (r2, c2)); [done..|].
    by rewrite (cell_cell_at g (r1, c1) v Hp), (cell_cell_at g (r2, c2) v Hq).
  - intros Hfree grp Hgrp.
    pose proof all_groups_NoDup as Hnd. rewrite Forall_forall in Hnd.
    unfold group_cells. rewrite no_repeat_fmap by auto.
    intros [r1 c1] [r2 c2] Hp Hq Hne Heq.
    pose proof all_groups_positions as Hpos. rewrite Forall_forall in Hpos.
    specialize (Hpos grp Hgrp). rewrite Forall_forall in Hpos.
    pose proof (Hpos _ Hp) as Hp'. pose proof (Hpos _ Hq) as Hq'.
    apply elem_of_all_positions in Hp' as [? ?] , Hq' as [? ?].
    destruct (is_grid_cell_Some g r1 c1 Hg) as [v Hv]; [done..|].
    destruct (is_grid_cell_Some g r2 c2 Hg) as [w Hw]; [done..|].
    rewrite (cell_cell_at g (r1, c1) v Hv), (cell_cell_at g (r2, c2) w Hw) in Heq.
    rewrite (cell_cell_at g (r1, c1) v Hv). subst w.
    destruct (decide (v = 0)) as [|Hnz]; [done|]. exfalso.
    apply (Hfree (r1, c1) (r2, c2) v); [done..|].
    apply peer_groups; [by apply elem_of_all_positions..|eauto].
Qed.

(** ** The two validity checks *)

Lemma Grid_Valid_valid_grid g :
  is_grid g ->
  (Grid_Valid g = Ok true /\ valid_grid g) \/
  (Grid_Valid g = Ok false /\ ~ valid_grid g).
Proof.
  intros Hg. rewrite (valid_grid_conflict_free g Hg).
  by apply Grid_Valid_conflict_free.
Qed.

Lemma groups_scan (gs : list (list Z)) :
  Forall group_in_range gs ->
  match foreach gs groups_Valid_body tt with
  | Next _ => Forall no_repeat gs
  | Return b => b = false /\ ~ Forall no_repeat gs
  | Abort _ => False
  end.
Proof.
  induction gs as [|c gs IH]; intros Hrange; simpl; [constructor|].
  apply Forall_cons_1 in Hrange as [Hc Hrange]. specialize (IH Hrange).
  unfold groups_Valid_body at 1.
  destruct (CellGroup_Valid_no_repeat c Hc) as [[-> Hok]|[-> Hbad]].
  - destruct (foreach gs _ _) as [[]|b|e]; [by constructor| |done].
    destruct IH as [-> IH]. split; [done|]. intros H.
    by apply Forall_cons_1 in H as [_ H].
  - split; [done|]. intros H. by apply Forall_cons_1 in H as [H _].
Qed.

Lemma cell_at_in_range g p : is_grid g -> 0 <= cell_at g p <= 9.
Proof.
  intros Hg. unfold cell_at. destruct (cell g p.1 p.2) as [v|] eqn:Hv; simpl; [|lia].
  by apply is_grid_cell in Hv as (_ & _ & ?).
Qed.

Lemma group_cells_in_range g ps : is_grid g -> group_in_range (group_cells g ps).
Proof.
  intros Hg. unfold group_in_range, group_cells. apply Forall_fmap, Forall_forall.
  intros p _. by apply cell_at_in_range.
Qed.

Lemma Grid_Valid_groups_valid_grid g :
  is_grid g ->
  (Grid_Valid_groups g = Ok true /\ valid_grid g) \/
  (Grid_Valid_groups g = Ok false /\ ~ valid_grid g).
Proof.
  intros Hg. pose proof (is_grid_shape g Hg) as Hshape.
  unfold Grid_Valid_groups.
  rewrite (Rows_groups g Hshape), (Columns_groups g Hshape), (Boxes_groups g Hshape).
  assert (forall positions : nat -> list (nat * nat),
    Forall group_in_range ((fun i => group_cells g (positions i)) <$> seq 0 9)) as Hrange.
  { intros positions. apply Forall_fmap, Forall_forall. intros i _.
    by apply group_cells_in_range. }
  assert (forall positions : nat -> list (nat * nat),
    Forall no_repeat ((fun i => group_cells g (positions i)) <$> seq 0 9) <->
    forall i, (i < 9)%nat -> no_repeat (group_cells g (positions i))) as Hall.
  { intros positions. rewrite Forall_fmap, Forall_seq. simpl.
    split; intros H i ?; apply H; lia. }
  unfold valid_grid.
  pose proof (groups_scan _ (Hrange row_positions)) as Hr.
  destruct (foreach _ groups_Valid_body tt) as [[]|b|e]; [| |done]; cycle 1.
  { right. destruct Hr as [-> Hr]. split; [done|]. rewrite Hall in Hr. tauto. }
  pose proof (groups_scan _ (Hrange column_positions)) as Hc.
  destruct (foreach _ groups_Valid_body tt) as [[]|b|e]; [| |done]; cycle 1.
  { right. destruct Hc as [-> Hc]. split; [done|]. rewrite Hall in Hc. tauto. }
  pose proof (groups_scan _ (Hrange box_positions)) as Hb.
  destruct (foreach _ groups_Valid_body tt) as [[]|b|e]; [| |done]; cycle 1.
  { right. destruct Hb as [-> Hb]. split; [done|]. rewrite Hall in Hb. tauto. }
  left. split; [done|]. rewrite Hall in Hr, Hc, Hb. done.
Qed.

(** ** Stores *)

Lemma cell_store_eq g r c v :
  is_Some (cell g r c) -> cell (store g r c v) r c = Some v.
Proof.
  unfold cell, store. intros [w Hw]. rewrite list_lookup_alter_eq.
  destruct (g !! r) as [rowCells|]; [|done]. simpl in *.
  apply list_lookup_insert_eq. by apply lookup_lt_Some in Hw.
Qed.

Lemma cell_store_ne g r c v r' c' :
  (r, c) ≠ (r', c') -> cell (store g r c v) r' c' = cell g r' c'.
Proof.
  unfold cell, store. intros Hne. rewrite list_lookup_alter.
  case_decide as Hr; [subst r'|done].
  destruct (g !! r) as [rowCells|]; [|done]. simpl.
  apply list_lookup_insert_ne. congruence.
Qed.

Lemma is_grid_store g r c v : is_grid g -> 0 <= v <= 9 -> is_grid (store g r c v).
Proof.
  intros [Hlen Hrows] Hv. unfold store. split; [by rewrite length_alter|].
  apply Forall_alter; [done|]. intros rowCells _ [Hl Hrange].
  split; [by rewrite length_insert|]. by apply Forall_insert.
Qed.

Lemma count_zero_insert (rowCells : list Z) c v :
  rowCells !! c = Some 0 -> v ≠ 0 ->
  S (length (filter (fun v => v = 0) (<[c := v]> rowCells))) =
  length (filter (fun v => v = 0) rowCells).
Proof.
  revert c. induction rowCells as [|x rowCells IH]; intros [|c] Hc Hv; try done.
  - simpl in Hc. injection Hc as ->.
    change (<[0%nat := v]> (0 :: rowCells)) with (v :: rowCells).
    rewrite filter_cons_False by done. by rewrite filter_cons_True by done.
  - simpl in Hc.
    change (<[S c := v]> (x :: rowCells)) with (x :: <[c := v]> rowCells).
    rewrite !filter_cons. case_decide; simpl; rewrite <- (IH c) by done; done.
Qed.

Lemma count_empty_store g r c v :
  cell g r c = Some 0 -> v ≠ 0 -> (count_empty (store g r c v) < count_empty g)%nat.
Proof.
  unfold cell, store, count_empty. revert r.
  induction g as [|rowCells g IH]; intros [|r] Hc Hv; try done.
  - pose proof (count_zero_insert rowCells c v Hc Hv). simpl in *. lia.
  - simpl. apply Nat.add_lt_mono_l. by apply IH.
Qed.

Lemma count_empty_le g : grid_shape g -> (count_empty g <= 81)%nat.
Proof.
  intros [Hlen Hrows].
  assert (count_empty g <= 9 * length g)%nat; [|lia].
  clear Hlen. unfold count_empty.
  induction Hrows as [|rowCells g Hrow _ IH]; simpl; [lia|].
  pose proof (length_filter (fun v : Z => v = 0) rowCells).
  unfold fmap in *. simpl in *. lia.
Qed.

(** ** Completions *)

Lemma extends_refl g : extends g g.
Proof. by intros r c v. Qed.

Lemma extends_trans g1 g2 g3 : extends g1 g2 -> extends g2 g3 -> extends g1 g3.
Proof. intros H12 H23 r c v Hv Hnz. apply H23; [|done]. by apply H12. Qed.

Lemma extends_store g r c v : cell g r c = Some 0 -> extends g (store g r c v).
Proof.
  intros Hc r' c' w Hw Hnz. rewrite cell_store_ne; [done|].
  intros [= <- <-]. congruence.
Qed.

Lemma store_extends g s r c v :
  is_Some (cell g r c) -> extends g s -> cell s r c = Some v -> extends (store g r c v) s.
Proof.
  intros Hc Hext Hs r' c' w Hw Hnz.
  destruct (decide ((r, c) = (r', c'))) as [[= <- <-]|Hne].
  - rewrite cell_store_eq in Hw by done. congruence.
  - rewrite cell_store_ne in Hw by done. by apply Hext.
Qed.

Lemma conflict_free_extends g s : extends g s -> conflict_free s -> conflict_free g.
Proof.
  intros Hext Hs p q v Hp Hq Hv. apply (Hs p q v); [by apply Hext..|done].
Qed.

Lemma completion_valid g s : is_grid g -> completion g s -> valid_grid g.
Proof.
  intros Hg (Hs & Hvalid & _ & Hext).
  apply valid_grid_conflict_free; [done|].
  apply (conflict_free_extends g s Hext). by apply valid_grid_conflict_free.
Qed.

Lemma elem_of_digits i : i ∈ digits <-> 1 <= i <= 9.
Proof. unfold digits. rewrite elem_of_seqZ. lia. Qed.

(** ** [Backtrack] *)

Lemma Backtrack_first_empty rec g (cells : list (nat * nat * Z)) :
  (Forall (fun p => p.2 ≠ 0) cells /\
   foreach cells (fun '(r, c, v) s => Backtrack_cell rec g r c v s) tt = Next tt) \/
  (exists r c, (r, c, 0) ∈ cells /\
   foreach cells (fun '(r, c, v) s => Backtrack_cell rec g r c v s) tt =
   Backtrack_cell rec g r c 0 tt).
Proof.
  induction cells as [|[[r c] v] cells IH]; [by left|].
  destruct (decide (v = 0)) as [->|Hv].
  - right. exists r, c. split; [left|]. simpl.
    unfold Backtrack_cell. rewrite decide_False by naive_solver.
    by destruct (foreach digits _ tt).
  - assert (foreach ((r, c, v) :: cells)
              (fun '(r, c, v) s => Backtrack_cell rec g r c v s) tt =
            foreach cells (fun '(r, c, v) s => Backtrack_cell rec g r c v s) tt)
      as ->.
    { simpl. unfold Backtrack_cell at 1. by rewrite decide_True by done. }
    destruct IH as [[Hall Hrun]|(r' & c' & Hin & Hrun)].
    + left. split; [by constructor|done].
    + right. exists r', c'. split; [by right|done].
Qed.

Lemma Backtrack_digits rec g r c (ds : list Z) :
  match foreach ds (Backtrack_digit rec g r c) tt with
  | Next _ => forall i, i ∈ ds -> exists g', rec (store g r c i) = Ok (g', false)
  | Return x => exists i s, i ∈ ds /\ x = (s, true) /\ rec (store g r c i) = Ok (s, true)
  | Abort e => exists i, i ∈ ds /\ rec (store g r c i) = Panic e
  end.
Proof.
  induction ds as [|i ds IH]; simpl.
  { intros i Hi. by apply elem_of_nil in Hi. }
  unfold Backtrack_digit at 1.
  destruct (rec (store g r c i)) as [[s [|]]|e] eqn:Hrec.
  - exists i, s. split; [left|done].
  - destruct (foreach ds _ tt) as [[]|x|e].
    + intros j Hj. apply elem_of_cons in Hj as [->|Hj]; eauto.
    + destruct IH as (j & s' & Hj & ? & ?). exists j, s'. split; [by right|done].
    + destruct IH as (j & Hj & ?). exists j. split; [by right|done].
  - exists i. split; [left|done].
Qed.

(** The specification of a call: a completion with [true], or the input
    with [false] when it has no completion. *)
Lemma Backtrack_body_spec rec g :
  is_grid g ->
  (forall g', is_grid g' -> (count_empty g' < count_empty g)%nat ->
     (exists s, rec g' = Ok (s, true) /\ completion g' s) \/
     (rec g' = Ok (g', false) /\ forall s, ~ completion g' s)) ->
  (exists s, Backtrack_body rec g = Ok (s, true) /\ completion g s) \/
  (Backtrack_body rec g = Ok (g, false) /\ forall s, ~ completion g s).
Proof.
  intros Hg Hrec. unfold Backtrack_body.
  destruct (Grid_Valid_valid_grid g Hg) as [[-> Hvalid]|[-> Hinvalid]]; cycle 1.
  { right. split; [done|]. intros s Hs. apply Hinvalid. by apply (completion_valid g s). }
  rewrite (foreach_cells g (Backtrack_cell rec g)).
  destruct (Backtrack_first_empty rec g (cells_of g))
    as [[Hfull ->]|(r & c & Hin & ->)].
  { left. exists g. split; [done|]. split; [done|]. split; [done|].
    split; [|apply extends_refl]. intros row col v Hv.
    apply elem_of_cells_of in Hv. rewrite Forall_forall in Hfull.
    by apply (Hfull _ Hv). }
  apply elem_of_cells_of in Hin.
  assert (forall i, i ∈ digits ->
    is_grid (store g r c i) /\ (count_empty (store g r c i) < count_empty g)%nat)
    as Hvariant.
  { intros i Hi. apply elem_of_digits in Hi. split.
    - apply is_grid_store; [done|lia].
    - apply count_empty_store; [done|lia]. }
  unfold Backtrack_cell. rewrite decide_False by naive_solver.
  pose proof (Backtrack_digits rec g r c digits) as Hloop.
  destruct (foreach digits _ tt) as [[]|x|e].
  - (* every digit failed *)
    right. split; [done|]. intros s (Hs & Hsvalid & Hsfull & Hext).
    destruct (is_grid_cell g r c 0 Hg Hin) as (Hr & Hc & _).
    destruct (is_grid_cell_Some s r c Hs Hr Hc) as [v Hv].
    destruct (is_grid_cell s r c v Hs Hv) as (_ & _ & Hrange).
    pose proof (Hsfull r c v Hv) as Hnz.
    assert (v ∈ digits) as Hdigit by (apply elem_of_digits; lia).
    destruct (Hloop v Hdigit) as [g' Hfail].
    destruct (Hvariant v Hdigit) as [Hg' Hless].
    destruct (Hrec _ Hg' Hless) as [(s' & Hok & _)|[_ Hnone]]; [congruence|].
    apply (Hnone s). split; [done|]. split; [done|]. split; [done|].
    apply store_extends; [by rewrite Hin|done..].
  - (* a digit led to a solution *)
    destruct Hloop as (i & s & Hi & -> & Hok).
    destruct (Hvariant i Hi) as [Hg' Hless].
    destruct (Hrec _ Hg' Hless) as [(s' & Hok' & Hcompl)|[Hfail _]]; [|congruence].
    assert (s' = s) as -> by congruence.
    left. exists s. split; [done|].
    destruct Hcompl as (? & ? & ? & Hext). split; [done|]. split; [done|].
    split; [done|]. eapply extends_trans; [|exact Hext]. by apply extends_store.
  - destruct Hloop as (i & Hi & Hpanic).
    destruct (Hvariant i Hi) as [Hg' Hless].
    destruct (Hrec _ Hg' Hless) as [(s' & Hok' & _)|[Hfail _]]; congruence.
Qed.

Lemma Backtrack_depth_spec d : forall g,
  is_grid g -> (count_empty g <= d)%nat ->
  (exists s, Backtrack_depth d g = Ok (s, true) /\ completion g s) \/
  (Backtrack_depth d g = Ok (g, false) /\ forall s, ~ completion g s).
Proof.
  induction d as [|d IH]; intros g Hg Hd.
  - apply Backtrack_body_spec; [done|]. intros g' _ Hless. lia.
  - apply Backtrack_body_spec; [done|]. intros g' Hg' Hless. apply IH; [done|lia].
Qed.

(** The body calls its parameter only on grids with strictly fewer empty
    cells: two parameters that agree on those give the same result. *)
Lemma Backtrack_body_ext rec1 rec2 g :
  (forall g', (count_empty g' < count_empty g)%nat -> rec1 g' = rec2 g') ->
  Backtrack_body rec1 g = Backtrack_body rec2 g.
Proof.
  intros Hrec. unfold Backtrack_body. destruct (Grid_Valid g) as [[|]|]; [|done..].
  rewrite !(foreach_cells g (Backtrack_cell _ g)).
  rewrite (foreach_ext (cells_of g) _
             (fun '(r, c, v) s => Backtrack_cell rec2 g r c v s)); [done|].
  intros [[r c] v] s Hin. unfold Backtrack_cell. case_decide as Hv; [done|].
  assert (v = 0) as -> by (destruct (decide (v = 0)); naive_solver).
  apply elem_of_cells_of in Hin.
  rewrite (foreach_ext digits _ (Backtrack_digit rec2 g r c)); [done|].
  intros i s' Hi. unfold Backtrack_digit. rewrite Hrec; [done|].
  apply count_empty_store; [done|]. apply elem_of_digits in Hi. lia.
Qed.

Lemma Backtrack_depth_0 g :
  Backtrack_depth 0 g = Backtrack_body (fun _ => Panic DepthExceeded) g.
Proof. reflexivity. Qed.

Lemma Backtrack_depth_S d g :
  Backtrack_depth (S d) g = Backtrack_body (Backtrack_depth d) g.
Proof. reflexivity. Qed.

(** Beyond the number of empty cells the depth bound does not matter. *)
Lemma Backtrack_depth_stable d1 : forall d2 g,
  (count_empty g <= d1)%nat -> (count_empty g <= d2)%nat ->
  Backtrack_depth d1 g = Backtrack_depth d2 g.
Proof.
  induction d1 as [|d1 IH]; intros [|d2] g H1 H2;
    rewrite ?Backtrack_depth_0, ?Backtrack_depth_S;
    apply Backtrack_body_ext; intros g' Hless; try lia.
  apply IH; lia.
Qed.

Lemma foreach_Abort {A S R} (Q : panic -> Prop) (l : list A)
    (body : A -> S -> flow S R) :
  (forall x s e, x ∈ l -> body x s = Abort e -> Q e) ->
  forall s e, foreach l body s = Abort e -> Q e.
Proof.
  induction l as [|x l IH]; intros Hbody s e; simpl; [done|].
  destruct (body x s) as [s'| |e'] eqn:Hx; [|done|].
  - apply IH. intros y s'' e'' Hy. apply Hbody. by right.
  - intros [= <-]. apply (Hbody x s e'); [left|done].
Qed.

Lemma index_Panic {A} (l : list A) i e : index l i = Panic e -> e = IndexOutOfRange.
Proof.
  unfold index. case_decide; [|congruence].
  destruct (l !! Z.to_nat i); congruence.
Qed.

Lemma seen_Panic t i v e : seen t i v = Panic e -> e = IndexOutOfRange.
Proof.
  unfold seen, at_nat. destruct (t !! i) as [row|]; simpl; [|congruence].
  apply index_Panic.
Qed.

Lemma Grid_Valid_Panic g e : Grid_Valid g = Panic e -> e = IndexOutOfRange.
Proof.
  unfold Grid_Valid. rewrite (foreach_cells g Grid_Valid_body).
  destruct (foreach (cells_of g) _ _) as [| |e'] eqn:Hrun; [done..|].
  intros [= <-]. revert Hrun. apply (foreach_Abort (fun e => e = IndexOutOfRange)).
  intros [[r c] v] s e _. unfold Grid_Valid_body. case_decide; [done|].
  destruct (seen (numsSeenByRow s) r v) as [[|]|] eqn:H1; [done| |].
  - destruct (seen (numsSeenByCol s) c v) as [[|]|] eqn:H2; [done| |].
    + destruct (seen (numsSeenByBox s) (box_of r c) v) as [[|]|] eqn:H3; [done..|].
      intros [= <-]. by apply seen_Panic in H3.
    + intros [= <-]. by apply seen_Panic in H2.
  - intros [= <-]. by apply seen_Panic in H1.
Qed.

Lemma Backtrack_body_Panic rec g e :
  (forall g' e', rec g' = Panic e' -> e' ≠ DepthExceeded) ->
  Backtrack_body rec g = Panic e -> e ≠ DepthExceeded.
Proof.
  intros Hrec. unfold Backtrack_body.
  destruct (Grid_Valid g) as [[|]|e'] eqn:Hvalid; [|done|]; cycle 1.
  { intros [= <-]. by apply Grid_Valid_Panic in Hvalid as ->. }
  rewrite (foreach_cells g (Backtrack_cell rec g)).
  destruct (foreach (cells_of g) _ _) as [| |e'] eqn:Hrun; [done..|].
  intros [= <-]. revert Hrun. apply (foreach_Abort (fun e => e ≠ DepthExceeded)).
  intros [[r c] v] s e1 _. unfold Backtrack_cell. case_decide; [done|].
  destruct (foreach digits _ s) as [| |e2] eqn:Hdigits; [done..|].
  intros [= <-]. revert Hdigits. apply (foreach_Abort (fun e => e ≠ DepthExceeded)).
  intros i s' e3 _. unfold Backtrack_digit.
  destruct (rec (store g r c i)) as [[? [|]]|e4] eqn:Hcall; [done..|].
  intros [= <-]. by apply Hrec in Hcall.
Qed.

(** With one level of depth per empty cell the bound is never hit. *)
Lemma Backtrack_depth_enough d : forall g,
  (count_empty g <= d)%nat -> Backtrack_depth d g ≠ Panic DepthExceeded.
Proof.
  induction d as [|d IH]; intros g Hd Hrun.
  - rewrite Backtrack_depth_0 in Hrun.
    rewrite (Backtrack_body_ext _ (fun g' => Ok (g', false)) g) in Hrun
      by (intros; lia).
    by eapply Backtrack_body_Panic in Hrun.
  - rewrite Backtrack_depth_S in Hrun.
    rewrite (Backtrack_body_ext _
      (fun g' => if decide (count_empty g' <= d)%nat
                 then Backtrack_depth d g' else Ok (g', false)) g) in Hrun.
    + eapply Backtrack_body_Panic in Hrun; [done|].
      intros g' e'. simpl. case_decide; [|done]. intros He' ->. by eapply IH.
    + intros g' Hless. by rewrite decide_True by lia.
Qed.

(** ** Ranking never panics on the data model *)

Lemma foreach_Next {A S R} (I : S -> Prop) (l : list A) (body : A -> S -> flow S R) :
  (forall x s, x ∈ l -> I s -> exists s', body x s = Next s' /\ I s') ->
  forall s, I s -> exists s', foreach l body s = Next s' /\ I s'.
Proof.
  induction l as [|x l IH]; intros Hbody s Hs; simpl; [eauto|].
  destruct (Hbody x s) as (s' & -> & Hs'); [left|done|].
  apply IH; [|done]. intros y s'' Hy. apply Hbody. by right.
Qed.

Lemma index_Ok {A} (l : list A) (i : Z) :
  0 <= i < Z.of_nat (length l) -> exists x, index l i = Ok x /\ l !! Z.to_nat i = Some x.
Proof.
  intros Hi. unfold index. rewrite decide_True by lia.
  destruct (lookup_lt_is_Some_2 l (Z.to_nat i)) as [x Hx]; [lia|].
  rewrite Hx. eauto.
Qed.

Lemma Apply_Ok g m :
  is_grid g -> move_in_range m ->
  Apply g m = Ok (store g (Z.to_nat (Row m)) (Z.to_nat (Col m)) (Value m)) /\
  is_grid (store g (Z.to_nat (Row m)) (Z.to_nat (Col m)) (Value m)).
Proof.
  intros Hg (Hr & Hc & Hv). split; [|by apply is_grid_store].
  unfold Apply. destruct (index_Ok g (Row m)) as (rowCells & -> & Hrow).
  { destruct Hg as [-> _]. lia. }
  simpl. destruct (is_grid_row g _ _ Hg Hrow) as (_ & Hlen & _).
  destruct (index_Ok rowCells (Col m)) as (x & -> & _); [lia|]. done.
Qed.

Lemma Possibilities_Ok g :
  is_grid g ->
  exists moves, Possibilities g = Ok moves /\
    Forall (fun m => 0 <= Row m < 9 /\ 0 <= Col m < 9) moves.
Proof.
  intros Hg. unfold Possibilities.
  rewrite (foreach_cells g (fun row col cell moves =>
    if decide (cell ≠ 0) then Next moves
    else foreach digits (fun i moves =>
      match Grid_Valid g with
      | Panic e => Abort e
      | Ok true => Next (moves ++ [mkMove (Z.of_nat row) (Z.of_nat col) i])
      | Ok false => Next moves
      end) moves)).
  destruct (foreach_Next (R := Empty_set)
    (Forall (fun m => 0 <= Row m < 9 /\ 0 <= Col m < 9)) (cells_of g)
    (fun '(row, col, cell) moves =>
      if decide (cell ≠ 0) then Next moves
      else foreach digits (fun i moves =>
        match Grid_Valid g with
        | Panic e => Abort e
        | Ok true => Next (moves ++ [mkMove (Z.of_nat row) (Z.of_nat col) i])
        | Ok false => Next moves
        end) moves)) with (s := @nil Move) as (moves & Hrun & Hmoves); [|constructor|].
  - intros [[r c] v] s Hin Hs. apply elem_of_cells_of in Hin.
    apply (is_grid_cell g) in Hin as (Hr & Hc & _); [|done].
    case_decide; [eauto|]. apply foreach_Next; [|done].
    intros i s' _ Hs'.
    destruct (Grid_Valid_valid_grid g Hg) as [[-> _]|[-> _]]; [|eauto].
    eexists. split; [done|]. apply Forall_app. split; [done|].
    apply Forall_singleton. simpl. lia.
  - rewrite Hrun. simpl. eauto.
Qed.

Lemma groupMoves_Ok moves :
  Forall (fun m => 0 <= Row m < 9 /\ 0 <= Col m < 9) moves ->
  exists grouped, groupMoves moves = Ok grouped.
Proof.
  intros Hmoves. unfold groupMoves.
  destruct (foreach_Next (R := Empty_set)
    (fun grouped : list (list (list Move)) =>
       length grouped = 9%nat /\ Forall (fun row => length row = 9%nat) grouped)
    moves
    (fun move grouped =>
      match rowMoves ← index grouped (Row move); index rowMoves (Col move) with
      | Panic e => Abort e
      | Ok ms =>
          Next (alter (fun rowMoves => <[Z.to_nat (Col move) := ms ++ [move]]> rowMoves)
                  (Z.to_nat (Row move)) grouped)
      end)) with (s := replicate 9 (replicate 9 (@nil Move))) as (grouped & Hrun & _).
  - intros m s Hm [Hlen Hrows]. rewrite Forall_forall in Hmoves.
    destruct (Hmoves m Hm) as [Hr Hc].
    destruct (index_Ok s (Row m)) as (rowMoves & -> & Hrow); [lia|]. simpl.
    assert (length rowMoves = 9%nat) as Hlen' by (by eapply Forall_lookup_1 in Hrows).
    destruct (index_Ok rowMoves (Col m)) as (ms & -> & _); [lia|].
    eexists. split; [done|]. split; [by rewrite length_alter|].
    apply Forall_alter; [done|]. intros ? _ ?. by rewrite length_insert.
  - split; [done|]. apply Forall_replicate. done.
  - rewrite Hrun. simpl. eauto.
Qed.

Lemma ColumnAt_Ok g col :
  is_grid g -> 0 <= col < 9 -> exists column, ColumnAt g col = Ok column.
Proof.
  intros Hg Hcol. unfold ColumnAt.
  destruct (foreach_Next (R := Empty_set) (fun _ : list Z => True) (indexed g)
    (fun '(i, rowCells) column =>
      match index rowCells col with
      | Panic e => Abort e
      | Ok x => Next (<[i := x]> column)
      end)) with (s := zero_group) as (column & Hrun & _); [|done|].
  - intros [i rowCells] s Hin _. apply elem_of_indexed in Hin.
    destruct (is_grid_row g _ _ Hg Hin) as (_ & Hlen & _).
    destruct (index_Ok rowCells col) as (x & -> & _); [lia|]. eauto.
  - rewrite Hrun. simpl. eauto.
Qed.

Lemma BoxAt_Ok g row col :
  is_grid g -> 0 <= row < 9 -> 0 <= col < 9 -> exists box, BoxAt g row col = Ok box.
Proof.
  intros Hg Hrow Hcol. unfold BoxAt.
  destruct (index_Ok g row) as (rowCells & Hr & Hr'); [destruct Hg as [-> _]; lia|].
  destruct (is_grid_row g _ _ Hg Hr') as (_ & Hlen & _).
  destruct (index_Ok rowCells col) as (x & Hc & _); [lia|].
  destruct (foreach_Next (R := Empty_set) (fun _ : list Z * nat => True)
    (seqZ (Z.quot row 3 * 3) 3)
    (fun r st =>
      foreach (seqZ (Z.quot col 3 * 3) 3) (fun c '(box, i) =>
        match rowCells ← index g row; index rowCells col with
        | Panic e => Abort e
        | Ok x => Next (<[i := x]> box, S i)
        end) st)) with (s := (zero_group, 0%nat)) as ([box i] & Hrun & _); [|done|].
  - intros r st _ _. apply foreach_Next; [|done].
    intros c [box i] _ _. rewrite Hr. simpl. rewrite Hc. eauto.
  - rewrite Hrun. simpl. eauto.
Qed.

Lemma NumCounts_Ok g :
  is_grid g -> exists counts, NumCounts g = Ok counts /\ length counts = 10%nat.
Proof.
  intros Hg. unfold NumCounts.
  destruct (foreach_Next (R := Empty_set) (fun counts : list Z => length counts = 10%nat) g
    (fun rowCells counts =>
      foreach rowCells (fun cell counts =>
        match index counts cell with
        | Panic e => Abort e
        | Ok n => Next (<[Z.to_nat cell := n + 1]> counts)
        end) counts)) with (s := replicate 10 0) as (counts & Hrun & Hlen); [|done|].
  - intros rowCells s Hin Hs. apply list_elem_of_lookup in Hin as [r Hin].
    destruct (is_grid_row g _ _ Hg Hin) as (_ & _ & Hrange).
    apply foreach_Next; [|done]. intros v s' Hv Hs'.
    unfold group_in_range in Hrange. rewrite Forall_forall in Hrange.
    specialize (Hrange v Hv).
    destruct (index_Ok s' v) as (n & -> & _); [lia|].
    eexists. split; [done|]. by rewrite length_insert.
  - rewrite Hrun. simpl. eauto.
Qed.

Lemma Rank_Ok m g : is_grid g -> move_in_range m -> exists rank, Rank m g = Ok rank.
Proof.
  intros Hg Hm. unfold Rank.
  destruct (Apply_Ok g m Hg Hm) as [-> Happlied]. simpl.
  destruct Hm as (Hr & Hc & Hv).
  destruct (Possibilities_Ok _ Happlied) as (moves & -> & Hmoves). simpl.
  destruct (groupMoves_Ok moves Hmoves) as (moveGrid & ->). simpl.
  destruct (foreach moveGrid _ tt) as [[]|x|e] eqn:Hrun; [|eauto|].
  - unfold RowAt.
    destruct (index_Ok (store g (Z.to_nat (Row m)) (Z.to_nat (Col m)) (Value m)) (Row m))
      as (rowGroup & -> & _).
    { destruct Happlied as [-> _]. lia. }
    simpl. destruct (ColumnAt_Ok _ (Col m) Happlied Hc) as (colGroup & ->). simpl.
    destruct (BoxAt_Ok _ (Row m) (Col m) Happlied Hr Hc) as (boxGroup & ->). simpl.
    destruct (NumCounts_Ok _ Happlied) as (counts & -> & Hlen). simpl.
    destruct (index_Ok counts (Value m)) as (numCount & -> & _); [lia|].
    simpl. eauto.
  - exfalso. revert Hrun. apply (foreach_Abort (fun _ => False)).
    intros row s e' _ Hrow. revert Hrow. apply (foreach_Abort (fun _ => False)).
    intros ms [] e'' _. by case_decide.
Qed.

(** ** [Hint] *)

Lemma later_cell (later : Grid) row col :
  (rowCellsLate ← at_nat later row; at_nat rowCellsLate col) =
  match cell later row col with
  | Some v => Ok v
  | None => Panic IndexOutOfRange
  end.
Proof. unfold at_nat, cell. by destruct (later !! row). Qed.

Lemma Hint_moves_scan (later : Grid) (cells : list (nat * nat * Z)) : forall acc,
  Forall (fun p => is_Some (cell later p.1.1 p.1.2)) cells ->
  foreach (R := Empty_set) cells (fun '(row, col, cellEarly) moves =>
    match rowCellsLate ← at_nat later row; at_nat rowCellsLate col with
    | Panic e => Abort e
    | Ok cellLate =>
        if decide (cellEarly = 0 /\ cellLate ≠ 0)
        then Next (moves ++ [mkMove (Z.of_nat row) (Z.of_nat col) cellLate])
        else Next moves
    end) acc =
  Next (acc ++ (cells ≫= fun '(row, col, cellEarly) =>
    match cell later row col with
    | Some cellLate =>
        if decide (cellEarly = 0 /\ cellLate ≠ 0)
        then [mkMove (Z.of_nat row) (Z.of_nat col) cellLate]
        else []
    | None => []
    end)).
Proof.
  induction cells as [|[[r c] e] cells IH]; intros acc Hall.
  { simpl. by rewrite app_nil_r. }
  apply Forall_cons_1 in Hall as [[v Hv] Hall]. simpl in Hv.
  rewrite bind_cons. simpl. rewrite later_cell, Hv.
  case_decide; rewrite IH by done; [|done]. by rewrite <- app_assoc.
Qed.

Lemma Hint_moves_candidates early later :
  is_grid early -> is_grid later ->
  Hint_moves early later = Ok (hint_candidates early later).
Proof.
  intros Hearly Hlater. unfold Hint_moves.
  rewrite (foreach_cells early (fun row col cellEarly moves =>
    match rowCellsLate ← at_nat later row; at_nat rowCellsLate col with
    | Panic e => Abort e
    | Ok cellLate =>
        if decide (cellEarly = 0 /\ cellLate ≠ 0)
        then Next (moves ++ [mkMove (Z.of_nat row) (Z.of_nat col) cellLate])
        else Next moves
    end)).
  rewrite Hint_moves_scan; [done|].
  apply Forall_forall. intros [[r c] e] Hin. simpl.
  apply elem_of_cells_of in Hin.
  destruct (is_grid_cell early r c e Hearly Hin) as (Hr & Hc & _).
  destruct (is_grid_cell_Some later r c Hlater Hr Hc) as [v Hv]. by rewrite Hv.
Qed.

Lemma elem_of_hint_candidates early later m :
  m ∈ hint_candidates early later <->
  exists row col v, m = mkMove (Z.of_nat row) (Z.of_nat col) v /\
    cell early row col = Some 0 /\ cell later row col = Some v /\ v ≠ 0.
Proof.
  unfold hint_candidates. rewrite list_elem_of_bind. split.
  - intros ([[r c] e] & Hm & Hin). apply elem_of_cells_of in Hin.
    destruct (cell later r c) as [v|] eqn:Hv; [|by apply elem_of_nil in Hm].
    case_decide as Hd; [|by apply elem_of_nil in Hm].
    apply list_elem_of_singleton in Hm. destruct Hd as [-> ?].
    exists r, c, v. done.
  - intros (r & c & v & -> & Hearly & Hlater & Hv).
    exists (r, c, 0). split; [|by apply elem_of_cells_of].
    rewrite Hlater. rewrite decide_True by done. by apply list_elem_of_singleton.
Qed.

Lemma hint_candidates_in_range early later :
  is_grid early -> is_grid later -> Forall move_in_range (hint_candidates early later).
Proof.
  intros Hearly Hlater. apply Forall_forall. intros m Hm.
  apply elem_of_hint_candidates in Hm as (r & c & v & -> & He & Hl & _).
  destruct (is_grid_cell later r c v Hlater Hl) as (? & ? & ?).
  unfold move_in_range. simpl. lia.
Qed.

Lemma bind_all_nil {A B} (f : A -> list B) (l : list A) :
  (forall x, x ∈ l -> f x = []) -> l ≫= f = [].
Proof.
  induction l as [|x l IH]; intros Hf; [done|].
  rewrite bind_cons, (Hf x) by left. simpl. apply IH.
  intros y Hy. apply Hf. by right.
Qed.

(** A list that maps every element but one to the empty list. *)
Lemma bind_single {A B} (f : A -> list B) (l : list A) (a : A) :
  NoDup l -> a ∈ l -> (forall x, x ∈ l -> x ≠ a -> f x = []) -> l ≫= f = f a.
Proof.
  induction l as [|x l IH]; intros Hnd Hin Hf; [by apply elem_of_nil in Hin|].
  apply NoDup_cons in Hnd as [Hx Hnd]. rewrite bind_cons.
  apply elem_of_cons in Hin as [<-|Hin].
  - rewrite (bind_all_nil f l); [by rewrite app_nil_r|].
    intros y Hy. apply Hf; [by right|]. by intros ->.
  - rewrite (Hf x); [|left|by intros ->]. simpl. apply IH; [done..|].
    intros y Hy. apply Hf. by right.
Qed.

Lemma foreach_cons {A S R} (x : A) (l : list A) (body : A -> S -> flow S R) s :
  foreach (x :: l) body s =
  match body x s with
  | Next s' => foreach l body s'
  | Return r => Return r
  | Abort e => Abort e
  end.
Proof. reflexivity. Qed.

Section HintProofs.

Variable SortFunc : forall A : Type, (A -> A -> Z) -> list A -> list A.
Hypothesis SortFunc_Permutation :
  forall (A : Type) (cmp : A -> A -> Z) (l : list A), SortFunc A cmp l ≡ₚ l.

Lemma Sort_ranks (p : list Move) g : forall acc,
  is_grid g -> Forall move_in_range p ->
  exists ranks,
    foreach (R := Empty_set) p (fun move ranks =>
      match Rank move g with
      | Panic e => Abort e
      | Ok rank => Next (ranks ++ [(move, rank)])
      end) acc = Next (acc ++ ranks) /\ fst <$> ranks = p.
Proof.
  intros acc Hg. revert acc.
  induction p as [|m p IH]; intros acc Hp.
  { exists []. by rewrite app_nil_r. }
  apply Forall_cons_1 in Hp as [Hm Hp].
  destruct (Rank_Ok m g Hg Hm) as [rank Hrank].
  destruct (IH (acc ++ [(m, rank)]) Hp) as (ranks & Hrun & Hfst).
  exists ((m, rank) :: ranks). split.
  - simpl. rewrite Hrank, Hrun. by rewrite <- app_assoc.
  - by rewrite fmap_cons, Hfst.
Qed.

Lemma Sort_write_back (sorted : list (Move * Z)) : forall (pre p : list Move),
  length p = length sorted ->
  foreach (R := Empty_set)
    (imap (fun i x => ((length pre + i)%nat, x)) sorted)
    (fun '(i, rank) p =>
      match at_nat p i with
      | Panic e => Abort e
      | Ok _ => Next (<[i := fst rank]> p)
      end) (pre ++ p) =
  Next (pre ++ (fst <$> sorted)).
Proof.
  induction sorted as [|x sorted IH]; intros pre p Hlen.
  { destruct p; [done|done]. }
  destruct p as [|y p]; [done|]. simpl in Hlen.
  rewrite imap_cons.
  assert (imap ((fun i x0 => ((length pre + i)%nat, x0)) ∘ S) sorted =
          imap (fun i (x0 : Move * Z) => ((length (pre ++ [x.1]) + i)%nat, x0)) sorted)
    as ->.
  { apply imap_ext. intros i z _. simpl. rewrite length_app. simpl. f_equal. lia. }
  assert (at_nat (pre ++ y :: p) (length pre + 0) = Ok y) as Hread.
  { unfold at_nat. by rewrite Nat.add_0_r, list_lookup_middle by done. }
  rewrite foreach_cons. cbv beta iota. rewrite Hread.
  rewrite Nat.add_0_r, (insert_app_r_alt pre (y :: p) (length pre)) by lia.
  rewrite Nat.sub_diag.
  specialize (IH (pre ++ [x.1]) p).
  rewrite <- !app_assoc in IH. apply IH. lia.
Qed.

(** [Sort] returns the moves in the order [SortFunc] gives their ranks. *)
Lemma Sort_Ok (p : list Move) g :
  is_grid g -> Forall move_in_range p ->
  exists p', Sort SortFunc p g = Ok p' /\ p' ≡ₚ p.
Proof.
  intros Hg Hp. unfold Sort.
  destruct (Sort_ranks p g [] Hg Hp) as (ranks & -> & Hfst). simpl.
  pose proof (SortFunc_Permutation _ (fun a b : Move * Z => a.2 - b.2) ranks) as Hperm.
  pose proof (Sort_write_back (SortFunc _ (fun a b : Move * Z => a.2 - b.2) ranks) [] p)
    as Hback.
  simpl in Hback. unfold indexed. rewrite Hback.
  - simpl. eexists. split; [done|]. by rewrite Hperm, Hfst.
  - by rewrite Hperm, <- Hfst, length_fmap.
Qed.

Lemma Hint_no_moves early later :
  is_grid early -> is_grid later ->
  hint_candidates early later = [] ->
  Hint SortFunc early later = Panic NoMovesAvailable.
Proof.
  intros Hearly Hlater Hnone. unfold Hint.
  by rewrite Hint_moves_candidates, Hnone by done.
Qed.

Lemma Hint_some_move early later :
  is_grid early -> is_grid later ->
  hint_candidates early later ≠ [] ->
  exists m, Hint SortFunc early later = Ok m /\ m ∈ hint_candidates early later.
Proof.
  intros Hearly Hlater Hsome. unfold Hint.
  rewrite Hint_moves_candidates by done. simpl.
  rewrite decide_False by (by destruct (hint_candidates early later)).
  destruct (Sort_Ok (hint_candidates early later) early Hearly)
    as (p' & -> & Hperm); [by apply hint_candidates_in_range|].
  simpl. destruct p' as [|m p'].
  { apply Permutation_nil_l in Hperm. congruence. }
  exists m. split; [done|]. rewrite <- Hperm. left.
Qed.

End HintProofs.

Lemma insert_by_Permutation {A} (cmp : A -> A -> Z) x (l : list A) :
  insert_by cmp x l ≡ₚ x :: l.
Proof.
  induction l as [|y l IH]; simpl; [done|].
  case_decide; [done|]. rewrite IH. apply Permutation_swap.
Qed.

Lemma insertion_sort_Permutation (A : Type) (cmp : A -> A -> Z) (l : list A) :
  insertion_sort A cmp l ≡ₚ l.
Proof.
  unfold insertion_sort. induction l as [|x l IH]; simpl; [done|].
  by rewrite insert_by_Permutation, IH.
Qed.

Lemma is_grid_partial : is_grid partial.
Proof. apply (bool_decide_unpack _). by vm_compute. Qed.

Lemma is_grid_filled : is_grid filled.
Proof. apply (bool_decide_unpack _). by vm_compute. Qed.

Lemma is_grid_zero_grid : is_grid zero_grid.
Proof. apply (bool_decide_unpack _). by vm_compute. Qed.

(** ** The repository's tests *)

(** [TestCellGroup_Valid] *)
Example CellGroup_Valid_tests :
  CellGroup_Valid zero_group = Ok true /\
  CellGroup_Valid [5; 3; 0; 0; 7; 0; 0; 0; 0] = Ok true /\
  CellGroup_Valid [0; 1; 0; 0; 2; 0; 0; 3; 1] = Ok false /\
  CellGroup_Valid [5; 3; 4; 6; 7; 8; 9; 1; 2] = Ok true /\
  CellGroup_Valid [1; 2; 3; 4; 5; 6; 7; 8; 1] = Ok false.
Proof. by vm_compute. Qed.

(** [TestGrid_Valid], on both drafts: the valid fixtures, then a double 6
    in row 6, a double 1 in the last column, a double 1 in the last box of
    the middle band, and a double 3 at the end of a filled grid. *)
Example Grid_Valid_tests :
  Forall (fun '(g, expected) =>
            Grid_Valid g = Ok expected /\ Grid_Valid_groups g = Ok expected)
    [ (zero_grid, true); (partial, true); (filled, true);
      (store partial 6 6 6, false); (store partial 0 8 1, false);
      (store partial 5 7 1, false); (store filled 8 8 3, false) ].
Proof. repeat constructor. Qed.

(** [TestBacktrack_Solvable] *)
Example Backtrack_partial : Backtrack partial = Ok (filled, true).
Proof. by vm_compute. Qed.

(** * Main results *)

(** ** Validity *)

(** C3.  On every grid of the data model both drafts of [Grid.Valid]
    return [true] when every row, every column and every 3x3 box has no
    repeated non-zero value, and [false] otherwise; zeros are filtered out
    of each group before duplicates are looked for, so empty cells never
    conflict. *)
Theorem Grid_Valid_iff_no_repeats (g : Grid) :
  is_grid g ->
  (valid_grid g -> Grid_Valid g = Ok true /\ Grid_Valid_groups g = Ok true) /\
  (~ valid_grid g -> Grid_Valid g = Ok false /\ Grid_Valid_groups g = Ok false).
Proof.
  intros Hg.
  destruct (Grid_Valid_valid_grid g Hg) as [[Hs ?]|[Hs ?]];
    destruct (Grid_Valid_groups_valid_grid g Hg) as [[Hc ?]|[Hc ?]];
    split; intros; done.
Qed.

Lemma Grid_Valid_iff_no_repeats_witness :
  is_grid partial /\
  (valid_grid partial ->
     Grid_Valid partial = Ok true /\ Grid_Valid_groups partial = Ok true) /\
  (~ valid_grid partial ->
     Grid_Valid partial = Ok false /\ Grid_Valid_groups partial = Ok false).
Proof.
  split; [exact is_grid_partial|].
  exact (Grid_Valid_iff_no_repeats partial is_grid_partial).
Defined.

(** C4.  On every grid of the data model the group based check and the
    single-pass seen-table check return the same boolean. *)
Theorem Grid_Valid_drafts_agree (g : Grid) :
  is_grid g -> Grid_Valid_groups g = Grid_Valid g.
Proof.
  intros Hg.
  destruct (Grid_Valid_valid_grid g Hg) as [[-> ?]|[-> ?]];
    destruct (Grid_Valid_groups_valid_grid g Hg) as [[-> ?]|[-> ?]]; done.
Qed.

Lemma Grid_Valid_drafts_agree_witness :
  is_grid partial /\ Grid_Valid_groups partial = Grid_Valid partial.
Proof.
  split; [exact is_grid_partial|].
  exact (Grid_Valid_drafts_agree partial is_grid_partial).
Defined.

(** Outside the data model the two drafts can part: with a duplicate in
    column 0 and a cell of 10 in the last row, the scan stops at the
    duplicate while the group based check reaches the row with the 10
    first. *)
Example Grid_Valid_drafts_out_of_range :
  let g := store (store (store zero_grid 0 0 1) 1 0 1) 8 8 10 in
  Grid_Valid g = Ok false /\ Grid_Valid_groups g = Panic IndexOutOfRange.
Proof. by vm_compute. Qed.

(** C10.  On every grid whose cells all lie in 0..9 neither validity
    check indexes a seen array out of bounds: the seen-table [Grid.Valid],
    the group based [Grid.Valid] and [CellGroup.Valid] on each of the 27
    groups all return a boolean.  The precondition is needed: a cell of 10
    makes both checks panic. *)
Theorem validity_checks_in_bounds (g : Grid) :
  is_grid g ->
  (exists b, Grid_Valid g = Ok b) /\
  (exists b, Grid_Valid_groups g = Ok b) /\
  Forall (fun c => exists b, CellGroup_Valid c = Ok b)
    (Rows g ++ Columns g ++ Boxes g) /\
  (Grid_Valid (store zero_grid 0 0 10) = Panic IndexOutOfRange /\
   CellGroup_Valid [10; 0; 0; 0; 0; 0; 0; 0; 0] = Panic IndexOutOfRange).
Proof.
  intros Hg. pose proof (is_grid_shape g Hg) as Hshape.
  split; [|split; [|split]].
  - destruct (Grid_Valid_valid_grid g Hg) as [[-> _]|[-> _]]; eauto.
  - destruct (Grid_Valid_groups_valid_grid g Hg) as [[-> _]|[-> _]]; eauto.
  - rewrite (Rows_groups g Hshape), (Columns_groups g Hshape), (Boxes_groups g Hshape).
    rewrite !Forall_app, !Forall_fmap.
    split; [|split]; apply Forall_forall; intros i _; cbv beta delta [compose];
      match goal with
      | |- exists b, CellGroup_Valid ?c = Ok b =>
          destruct (CellGroup_Valid_no_repeat c (group_cells_in_range g _ Hg))
            as [[-> _]|[-> _]]; eauto
      end.
  - by vm_compute.
Qed.

Lemma validity_checks_in_bounds_witness :
  is_grid filled /\
  (exists b, Grid_Valid filled = Ok b) /\
  (exists b, Grid_Valid_groups filled = Ok b) /\
  Forall (fun c => exists b, CellGroup_Valid c = Ok b)
    (Rows filled ++ Columns filled ++ Boxes filled) /\
  (Grid_Valid (store zero_grid 0 0 10) = Panic IndexOutOfRange /\
   CellGroup_Valid [10; 0; 0; 0; 0; 0; 0; 0; 0] = Panic IndexOutOfRange).
Proof.
  split; [exact is_grid_filled|].
  exact (validity_checks_in_bounds filled is_grid_filled).
Defined.

(** ** Derived groups *)

(** C6.  [Grid.BoxAt] does not return the cells of the box: it stores
    [g[row][col]] in all nine slots.  On the grid whose only digit is a 5
    at (0, 0), [BoxAt 0 0] is nine 5s, while box 0 holds one 5 and eight
    empty cells, as [Grid.Boxes] of the group based draft reports. *)
Theorem BoxAt_repeats_one_cell :
  let g := store zero_grid 0 0 5 in
  BoxAt g 0 0 = Ok [5; 5; 5; 5; 5; 5; 5; 5; 5] /\
  group_cells g (box_positions (box_of 0 0)) = [5; 0; 0; 0; 0; 0; 0; 0; 0] /\
  Boxes g !! box_of 0 0 = Some [5; 0; 0; 0; 0; 0; 0; 0; 0].
Proof. by vm_compute. Qed.

(** ** Possibilities and ranking *)

(** C1.  [Grid.Possibilities] tests [g.Valid()] and not the variant: on
    the grid whose only digit is a 1 at (0, 0) it lists the move that
    puts a second 1 into row 0, although the grid after that move is not
    valid. *)
Theorem Possibilities_ignores_variant :
  let g := store zero_grid 0 0 1 in
  (exists moves, Possibilities g = Ok moves /\ mkMove 0 1 1 ∈ moves) /\
  Grid_Valid (store g 0 1 1) = Ok false.
Proof.
  split; [|by vm_compute].
  eexists. split; [by vm_compute|]. apply (bool_decide_unpack _). by vm_compute.
Qed.

(** C5.  [Move.Rank] does not add the number of non-empty cells of the
    move's box: through [BoxAt] it adds 9 for every move that places a
    digit.  On the empty grid the move (0, 0, 1) ranks 12, while row,
    column, box and digit each count one cell after the move. *)
Theorem Rank_counts_box_as_nine :
  let m := mkMove 0 0 1 in
  let applied := store zero_grid 0 0 1 in
  Rank m zero_grid = Ok 12 /\
  Apply zero_grid m = Ok applied /\
  Count (group_cells applied (row_positions 0)) = 1 /\
  Count (group_cells applied (column_positions 0)) = 1 /\
  Count (group_cells applied (box_positions (box_of 0 0))) = 1 /\
  length (filter (fun v => v = Value m) (concat applied)) = 1%nat.
Proof. by vm_compute. Qed.

(** ** Solving *)

(** C9.  [Backtrack] terminates on every grid.  Its body uses the
    recursive call only on grids with strictly fewer empty cells (two
    candidates for the callee that agree on those grids give the same
    result, and every variant it builds has fewer empty cells), a grid has
    at most 81 empty cells, so 81 nested calls always suffice: the depth
    bound of the model is never hit, and any larger bound gives the same
    result. *)
Theorem Backtrack_terminates (g : Grid) :
  grid_shape g ->
  (forall rec1 rec2 : Grid -> result (Grid * bool),
     (forall g', (count_empty g' < count_empty g)%nat -> rec1 g' = rec2 g') ->
     Backtrack_body rec1 g = Backtrack_body rec2 g) /\
  (forall row col i, cell g row col = Some 0 -> i ∈ digits ->
     (count_empty (store g row col i) < count_empty g)%nat) /\
  (count_empty g <= 81)%nat /\
  (forall depth, (count_empty g <= depth)%nat ->
     Backtrack_depth depth g = Backtrack g) /\
  (exists r, Backtrack g = r /\ r ≠ Panic DepthExceeded).
Proof.
  intros Hshape. pose proof (count_empty_le g Hshape) as Hle.
  split; [|split; [|split; [|split]]].
  - intros rec1 rec2 Hrec. by apply Backtrack_body_ext.
  - intros row col i Hcell Hi. apply count_empty_store; [done|].
    apply elem_of_digits in Hi. lia.
  - done.
  - intros depth Hdepth. unfold Backtrack. by apply Backtrack_depth_stable.
  - exists (Backtrack g). split; [done|]. by apply Backtrack_depth_enough.
Qed.

Lemma grid_shape_partial : grid_shape partial.
Proof. apply is_grid_shape, is_grid_partial. Qed.

Lemma Backtrack_terminates_witness :
  grid_shape partial /\
  (forall depth, (count_empty partial <= depth)%nat ->
     Backtrack_depth depth partial = Backtrack partial) /\
  (exists r, Backtrack partial = r /\ r ≠ Panic DepthExceeded).
Proof.
  split; [exact grid_shape_partial|].
  destruct (Backtrack_terminates partial grid_shape_partial)
    as (_ & _ & _ & Hstable & Hresult).
  exact (conj Hstable Hresult).
Defined.

(** C2.  For every grid [g] of the data model: when [g] has a completion
    (a valid grid without empty cells that agrees with [g] on the cells
    [g] has filled), [Backtrack g] returns such a completion with [true];
    when it has none, and in particular when [g] is not valid,
    [Backtrack g] returns [g] itself with [false]. *)
Theorem Backtrack_correct (g : Grid) :
  is_grid g ->
  ((exists s, completion g s) ->
     exists s, Backtrack g = Ok (s, true) /\ completion g s) /\
  (~ (exists s, completion g s) -> Backtrack g = Ok (g, false)) /\
  (~ valid_grid g -> Backtrack g = Ok (g, false)).
Proof.
  intros Hg.
  pose proof (count_empty_le g (is_grid_shape g Hg)) as Hle.
  destruct (Backtrack_depth_spec 81 g Hg Hle) as [(s & Hrun & Hs)|[Hrun Hnone]];
    fold (Backtrack g) in Hrun.
  - split; [eauto|]. split.
    + intros Hno. destruct Hno. eauto.
    + intros Hinvalid. destruct Hinvalid. by apply (completion_valid g s).
  - split; [|done]. intros [s Hs]. by apply Hnone in Hs.
Qed.

Lemma completion_filled : completion filled filled.
Proof.
  split; [exact is_grid_filled|]. split; [|split; [|apply extends_refl]].
  - destruct (Grid_Valid_valid_grid filled is_grid_filled) as [[_ ?]|[Hrun _]]; [done|].
    by vm_compute in Hrun.
  - intros row col v Hv. apply elem_of_cells_of in Hv.
    assert (Forall (fun p : nat * nat * Z => p.2 ≠ 0) (cells_of filled)) as Hall.
    { apply (bool_decide_unpack _). by vm_compute. }
    rewrite Forall_forall in Hall. by apply (Hall _ Hv).
Qed.

Lemma Backtrack_correct_witness :
  is_grid filled /\
  exists s, Backtrack filled = Ok (s, true) /\ completion filled s.
Proof.
  split; [exact is_grid_filled|].
  destruct (Backtrack_correct filled is_grid_filled) as [Hsolve _].
  exact (Hsolve (ex_intro _ filled completion_filled)).
Defined.

(** ** Hints *)

(** C7.  When [later] differs from [early] in exactly one cell, empty in
    [early] and set in [later], [Hint] returns that cell's row, column and
    value from [later], whatever rank the move gets and whichever
    permutation [SortFunc] computes. *)
Theorem Hint_single_difference
    (SortFunc : forall A : Type, (A -> A -> Z) -> list A -> list A)
    (early later : Grid) (row col : nat) (v : Z) :
  (forall (A : Type) (cmp : A -> A -> Z) (l : list A), SortFunc A cmp l ≡ₚ l) ->
  is_grid early -> is_grid later ->
  cell early row col = Some 0 -> cell later row col = Some v -> v ≠ 0 ->
  (forall r c, (r, c) ≠ (row, col) -> cell later r c = cell early r c) ->
  Hint SortFunc early later = Ok (mkMove (Z.of_nat row) (Z.of_nat col) v).
Proof.
  intros Hsort Hearly Hlater Hcell Hv Hnz Hsame.
  assert (hint_candidates early later = [mkMove (Z.of_nat row) (Z.of_nat col) v])
    as Hmoves.
  { unfold hint_candidates.
    rewrite (bind_single _ (cells_of early) (row, col, 0)).
    - by rewrite Hv, decide_True.
    - apply NoDup_cells_of.
    - by apply elem_of_cells_of.
    - intros [[r c] e] Hin Hne. apply elem_of_cells_of in Hin.
      assert ((r, c) ≠ (row, col)) as Hpos.
      { intros [= -> ->]. apply Hne. congruence. }
      rewrite (Hsame r c Hpos), Hin. apply decide_False. tauto. }
  destruct (Hint_some_move SortFunc Hsort early later Hearly Hlater)
    as (m & -> & Hm); [by rewrite Hmoves|].
  rewrite Hmoves in Hm. apply list_elem_of_singleton in Hm. by subst m.
Qed.

Lemma Hint_single_difference_witness :
  Hint insertion_sort partial (store partial 0 2 4) = Ok (mkMove 0 2 4).
Proof.
  apply (Hint_single_difference insertion_sort partial (store partial 0 2 4) 0 2 4).
  - exact insertion_sort_Permutation.
  - exact is_grid_partial.
  - apply is_grid_store; [exact is_grid_partial|lia].
  - reflexivity.
  - reflexivity.
  - lia.
  - intros r c Hne. apply cell_store_ne. congruence.
Defined.

(** C8.  On grids of the data model [Hint] panics exactly when it
    collected no move, that is when no cell is empty in [early] and set in
    [later]; the panic is then its own "no moves available".  In every
    other case it returns one of the collected moves. *)
Theorem Hint_panics_iff_no_moves
    (SortFunc : forall A : Type, (A -> A -> Z) -> list A -> list A)
    (early later : Grid) :
  (forall (A : Type) (cmp : A -> A -> Z) (l : list A), SortFunc A cmp l ≡ₚ l) ->
  is_grid early -> is_grid later ->
  exists moves,
    Hint_moves early later = Ok moves /\
    (moves = [] <->
     ~ exists row col v,
         cell early row col = Some 0 /\ cell later row col = Some v /\ v ≠ 0) /\
    ((exists e, Hint SortFunc early later = Panic e) <-> moves = []) /\
    (moves = [] -> Hint SortFunc early later = Panic NoMovesAvailable) /\
    (moves ≠ [] -> exists m, Hint SortFunc early later = Ok m /\ m ∈ moves).
Proof.
  intros Hsort Hearly Hlater. exists (hint_candidates early later).
  split; [by apply Hint_moves_candidates|].
  assert (hint_candidates early later = [] <->
          ~ exists row col v,
              cell early row col = Some 0 /\ cell later row col = Some v /\ v ≠ 0)
    as Hempty.
  { split.
    - intros Hnil (r & c & v & He & Hl & Hv).
      assert (mkMove (Z.of_nat r) (Z.of_nat c) v ∈ hint_candidates early later) as Hin.
      { apply elem_of_hint_candidates. by exists r, c, v. }
      rewrite Hnil in Hin. by apply elem_of_nil in Hin.
    - intros Hnone. destruct (hint_candidates early later) as [|m ms] eqn:Hms; [done|].
      destruct Hnone.
      assert (m ∈ hint_candidates early later) as Hin by (rewrite Hms; left).
      apply elem_of_hint_candidates in Hin as (r & c & v & _ & ?). by exists r, c, v. }
  split; [done|]. split; [|split].
  - split.
    + intros [e He].
      destruct (decide (hint_candidates early later = [])) as [|Hsome]; [done|].
      destruct (Hint_some_move SortFunc Hsort early later Hearly Hlater Hsome)
        as (m & Hm & _). congruence.
    + intros Hnil. exists NoMovesAvailable. by apply Hint_no_moves.
  - by apply Hint_no_moves.
  - by apply Hint_some_move.
Qed.

Lemma Hint_panics_iff_no_moves_witness :
  exists moves,
    Hint_moves partial filled = Ok moves /\
    (moves = [] <->
     ~ exists row col v,
         cell partial row col = Some 0 /\ cell filled row col = Some v /\ v ≠ 0) /\
    ((exists e, Hint insertion_sort partial filled = Panic e) <-> moves = []) /\
    (moves = [] -> Hint insertion_sort partial filled = Panic NoMovesAvailable) /\
    (moves ≠ [] -> exists m, Hint insertion_sort partial filled = Ok m /\ m ∈ moves).
Proof.
  exact (Hint_panics_iff_no_moves insertion_sort partial filled
           insertion_sort_Permutation is_grid_partial is_grid_filled).
Defined.

(** [Hint] on a pair of equal grids. *)
Example Hint_equal_grids : Hint insertion_sort filled filled = Panic NoMovesAvailable.
Proof. by vm_compute. Qed.

(** * Further properties *)

(** ** Rendering *)

Ltac explode_is_grid g Hg :=
  let Hshape := fresh "Hshape" in
  pose proof (is_grid_shape g Hg) as Hshape;
  destruct Hg as [_ Hg];
  explode_grid g Hshape;
  repeat match goal with
  | H : Forall _ (_ :: _) |- _ => apply Forall_cons_1 in H as [? H]
  | H : _ /\ group_in_range _ |- _ => destruct H as [_ H]; unfold group_in_range in H
  end;
  repeat match goal with
  | H : Forall _ [] |- _ => clear H
  end.

Lemma append_cons (x : ascii) (a b : string) :
  String x a +:+ b = String x (a +:+ b).
Proof. reflexivity. Qed.

Lemma append_assoc (a b c : string) : (a +:+ b) +:+ c = a +:+ (b +:+ c).
Proof. induction a as [|x a IH]; [done|]. rewrite !append_cons. by f_equal. Qed.

Lemma append_empty_r (a : string) : a +:+ "" = a.
Proof. induction a as [|x a IH]; [done|]. rewrite append_cons. by f_equal. Qed.

Lemma String_row_text (cells : list Z) : forall (col : nat) (w : string),
  fold_left (fun w '(col, cell) => String_cell w col cell)
    (imap (fun i x => ((col + i)%nat, x)) cells) w =
  w +:+ row_text col cells.
Proof.
  induction cells as [|cell cells IH]; intros col w.
  { simpl. by rewrite append_empty_r. }
  rewrite imap_cons. cbn [fold_left].
  rewrite (imap_ext _ (fun i x => ((S col + i)%nat, x))); cycle 1.
  { intros i x _. simpl. f_equal. lia. }
  rewrite IH, Nat.add_0_r. unfold String_cell, WriteByte, WriteString.
  cbn [row_text]. unfold render_cell.
  repeat case_decide; rewrite ?append_assoc; try done; naive_solver.
Qed.

Lemma Grid_String_text_from (g : Grid) : forall (row : nat) (w : string),
  fold_left (fun w '(row, rowCells) =>
    let w := if decide (row `mod` 3 = 0 /\ 0 < row)%nat
             then WriteString w ("#####################" +:+ String newline "")
             else w in
    let w := fold_left (fun w '(col, cell) => String_cell w col cell)
               (indexed rowCells) w in
    WriteByte w newline) (imap (fun i x => ((row + i)%nat, x)) g) w =
  w +:+ grid_text row g.
Proof.
  induction g as [|rowCells g IH]; intros row w.
  { simpl. by rewrite append_empty_r. }
  rewrite imap_cons. cbn [fold_left].
  rewrite (imap_ext _ (fun i x => ((S row + i)%nat, x))); cycle 1.
  { intros i x _. simpl. f_equal. lia. }
  rewrite IH, Nat.add_0_r. cbn zeta. unfold indexed.
  rewrite (String_row_text rowCells 0). unfold WriteByte, WriteString.
  cbn [grid_text].
  case_decide; rewrite ?append_assoc; done.
Qed.

(** [Grid.String] without the builder. *)
Lemma Grid_String_text g : Grid_String g = grid_text 0 g.
Proof. exact (Grid_String_text_from g 0 ""). Qed.

(** The test [TestGrid_String] on the partial fixture. *)
Example Grid_String_partial :
  Grid_String partial =
"5 3 _ # _ 7 _ # _ _ _ 
6 _ _ # 1 9 5 # _ _ _ 
_ 9 8 # _ _ _ # _ 6 _ 
#####################
8 _ _ # _ 6 _ # _ _ 3 
4 _ _ # 8 _ 3 # _ _ 1 
7 _ _ # _ 2 _ # _ _ 6 
#####################
_ 6 _ # _ _ _ # 2 8 _ 
_ _ _ # 4 1 9 # _ _ 5 
_ _ _ # _ 8 _ # _ 7 9 
".
Proof. by vm_compute. Qed.

Lemma render_cell_alphabet x : 0 <= x <= 9 -> render_cell x ∈ alphabet.
Proof.
  intros Hx. assert (x ∈ seqZ 0 10) as Hin by (apply elem_of_seqZ; lia).
  clear Hx. revert x Hin. apply Forall_forall.
  apply (bool_decide_unpack _). by vm_compute.
Qed.

Lemma render_cell_inj x y :
  0 <= x <= 9 -> 0 <= y <= 9 -> render_cell x = render_cell y -> x = y.
Proof.
  intros Hx Hy.
  assert (x ∈ seqZ 0 10) as Hxin by (apply elem_of_seqZ; lia).
  assert (y ∈ seqZ 0 10) as Hyin by (apply elem_of_seqZ; lia).
  clear Hx Hy. revert y Hyin.
  apply (proj1 (Forall_forall
    (fun y => render_cell x = render_cell y -> x = y) (seqZ 0 10))).
  revert x Hxin.
  apply (proj1 (Forall_forall
    (fun x => Forall (fun y => render_cell x = render_cell y -> x = y) (seqZ 0 10))
    (seqZ 0 10))).
  apply (bool_decide_unpack _). by vm_compute.
Qed.

(** X1.  [Grid.String] writes a fixed layout: for every grid of the data
    model the text has 251 bytes (nine lines of 23 bytes and two separator
    lines of 22), and every byte is [_], a digit 1 to 9, a space, [#] or a
    newline. *)
Theorem Grid_String_layout (g : Grid) :
  is_grid g ->
  String.length (Grid_String g) = 251%nat /\
  Forall (fun ch => ch ∈ alphabet) (String.list_ascii_of_string (Grid_String g)).
Proof.
  intros Hg. rewrite Grid_String_text. explode_is_grid g Hg.
  split; [reflexivity|].
  cbv -[render_cell alphabet elem_of].
  repeat (apply Forall_cons; split;
    [first [by apply render_cell_alphabet | apply (bool_decide_unpack _); by vm_compute]|]).
  apply Forall_nil_2.
Qed.

Lemma Grid_String_layout_witness :
  is_grid partial /\
  String.length (Grid_String partial) = 251%nat /\
  Forall (fun ch => ch ∈ alphabet) (String.list_ascii_of_string (Grid_String partial)).
Proof.
  split; [exact is_grid_partial|].
  exact (Grid_String_layout partial is_grid_partial).
Defined.

(** X2.  On the data model [Grid.String] loses nothing: two grids with
    the same text are equal. *)
Theorem Grid_String_injective (g1 g2 : Grid) :
  is_grid g1 -> is_grid g2 -> Grid_String g1 = Grid_String g2 -> g1 = g2.
Proof.
  intros Hg1 Hg2. rewrite !Grid_String_text.
  explode_is_grid g1 Hg1. explode_is_grid g2 Hg2.
  intros Htext. cbv -[render_cell] in Htext.
  repeat match goal with
  | H : String _ _ = String _ _ |- _ => injection H as ? H
  end.
  repeat f_equal; by apply render_cell_inj.
Qed.

Lemma Grid_String_injective_witness :
  store (store partial 0 2 4) 0 2 0 = partial.
Proof.
  apply (Grid_String_injective (store (store partial 0 2 4) 0 2 0) partial).
  - apply (bool_decide_unpack _). by vm_compute.
  - exact is_grid_partial.
  - by vm_compute.
Defined.

(** Outside the data model the text can lose a cell: 47 is rendered as
    ['0' + 47], which is [_], the mark of an empty cell. *)
Example Grid_String_47 : Grid_String (store zero_grid 0 0 47) = Grid_String zero_grid.
Proof. by vm_compute. Qed.

(** ** Derived groups *)

Lemma index_out_of_range {A} (l : list A) (i : Z) :
  ~ (0 <= i < Z.of_nat (length l)) -> index l i = Panic IndexOutOfRange.
Proof.
  intros Hi. unfold index. case_decide; [|done].
  rewrite lookup_ge_None_2; [done|lia].
Qed.

Lemma grid_shape_row g r rowCells :
  grid_shape g -> g !! r = Some rowCells -> length rowCells = 9%nat.
Proof. intros [_ Hrows] Hr. by eapply Forall_lookup_1 in Hrows. Qed.

Lemma grid_shape_store g r c v : grid_shape g -> grid_shape (store g r c v).
Proof.
  intros [Hlen Hrows]. unfold store. split; [by rewrite length_alter|].
  apply Forall_alter; [done|]. intros rowCells _ Hl. by rewrite length_insert.
Qed.

Lemma cell_Columns g r c : grid_shape g -> cell (Columns g) c r = cell g r c.
Proof.
  intros Hshape. explode_grid g Hshape.
  do 9 (destruct r as [|r]; [do 9 (destruct c as [|c]; [reflexivity|]); reflexivity|]).
  do 9 (destruct c as [|c]; [reflexivity|]). reflexivity.
Qed.

Lemma grid_shape_Columns g : grid_shape g -> grid_shape (Columns g).
Proof.
  intros Hshape. explode_grid g Hshape. apply (bool_decide_unpack _). by vm_compute.
Qed.

Lemma Columns_involutive g : grid_shape g -> Columns (Columns g) = g.
Proof. intros Hshape. explode_grid g Hshape. reflexivity. Qed.

(** X3.  [Grid.Columns] transposes: cell (c, r) of the columns is cell
    (r, c) of the grid, the result is again 9x9, and transposing twice
    gives the grid back. *)
Theorem Columns_transpose (g : Grid) :
  grid_shape g ->
  grid_shape (Columns g) /\
  (forall r c, cell (Columns g) c r = cell g r c) /\
  Columns (Columns g) = g.
Proof.
  intros Hshape. split; [|split].
  - by apply grid_shape_Columns.
  - intros r c. by apply cell_Columns.
  - by apply Columns_involutive.
Qed.

Lemma Columns_transpose_witness :
  grid_shape partial /\
  grid_shape (Columns partial) /\
  (forall r c, cell (Columns partial) c r = cell partial r c) /\
  Columns (Columns partial) = partial.
Proof.
  split; [exact grid_shape_partial|].
  exact (Columns_transpose partial grid_shape_partial).
Defined.

(** X4.  [Grid.Boxes] files cell (row, col) under box
    [(col/3)*3 + row/3] at slot [(col - (col/3)*3)*3 + (row - (row/3)*3)];
    entry [b] of the result is the group of the nine positions of box
    [b], and the result is again 9x9. *)
Theorem Boxes_cells (g : Grid) :
  grid_shape g ->
  grid_shape (Boxes g) /\
  (forall row col, (row < 9)%nat -> (col < 9)%nat ->
     cell (Boxes g) (box_of row col)
          ((col - col / 3 * 3) * 3 + (row - row / 3 * 3)) = cell g row col) /\
  (forall b, (b < 9)%nat ->
     Boxes g !! b = Some (group_cells g (box_positions b))).
Proof.
  intros Hshape. split; [|split].
  - explode_grid g Hshape. apply (bool_decide_unpack _). by vm_compute.
  - intros row col Hrow Hcol. explode_grid g Hshape.
    do 9 (destruct row as [|row];
      [do 9 (destruct col as [|col]; [reflexivity|]); lia|]). lia.
  - intros b Hb. rewrite (Boxes_groups g Hshape).
    rewrite list_lookup_fmap, lookup_seq_lt by done. done.
Qed.

Lemma Boxes_cells_witness :
  grid_shape partial /\
  grid_shape (Boxes partial) /\
  (forall row col, (row < 9)%nat -> (col < 9)%nat ->
     cell (Boxes partial) (box_of row col)
          ((col - col / 3 * 3) * 3 + (row - row / 3 * 3)) = cell partial row col) /\
  (forall b, (b < 9)%nat ->
     Boxes partial !! b = Some (group_cells partial (box_positions b))).
Proof.
  split; [exact grid_shape_partial|].
  exact (Boxes_cells partial grid_shape_partial).
Defined.

(** X5.  [Grid.RowAt] and [Grid.ColumnAt] return the row and the column
    of the grid, [ColumnAt] the same group as entry [col] of
    [Grid.Columns]; an index outside 0..8 is a run-time panic. *)
Theorem RowAt_ColumnAt_groups (g : Grid) :
  grid_shape g ->
  (forall i, 0 <= i < 9 ->
     RowAt g i = Ok (group_cells g (row_positions (Z.to_nat i))) /\
     ColumnAt g i = Ok (group_cells g (column_positions (Z.to_nat i))) /\
     Rows g !! Z.to_nat i = Some (group_cells g (row_positions (Z.to_nat i))) /\
     Columns g !! Z.to_nat i = Some (group_cells g (column_positions (Z.to_nat i)))) /\
  (forall i, ~ (0 <= i < 9) ->
     RowAt g i = Panic IndexOutOfRange /\ ColumnAt g i = Panic IndexOutOfRange).
Proof.
  intros Hshape. split.
  - intros i Hi. explode_grid g Hshape.
    assert (i = 0 \/ i = 1 \/ i = 2 \/ i = 3 \/ i = 4 \/ i = 5 \/ i = 6 \/ i = 7 \/ i = 8)
      as Hcases by lia.
    repeat destruct Hcases as [->|Hcases]; try subst i; repeat split; reflexivity.
  - intros i Hi. split.
    + apply index_out_of_range. destruct Hshape as [-> _]. lia.
    + explode_grid g Hshape. unfold ColumnAt, indexed.
      cbn [imap foreach]. by rewrite index_out_of_range.
Qed.

Lemma RowAt_ColumnAt_groups_witness :
  grid_shape partial /\
  (forall i, 0 <= i < 9 ->
     RowAt partial i = Ok (group_cells partial (row_positions (Z.to_nat i))) /\
     ColumnAt partial i = Ok (group_cells partial (column_positions (Z.to_nat i))) /\
     Rows partial !! Z.to_nat i = Some (group_cells partial (row_positions (Z.to_nat i))) /\
     Columns partial !! Z.to_nat i =
       Some (group_cells partial (column_positions (Z.to_nat i)))) /\
  (forall i, ~ (0 <= i < 9) ->
     RowAt partial i = Panic IndexOutOfRange /\
     ColumnAt partial i = Panic IndexOutOfRange).
Proof.
  split; [exact grid_shape_partial|].
  exact (RowAt_ColumnAt_groups partial grid_shape_partial).
Defined.

Lemma Count_from (c : list Z) : forall count,
  fold_left (fun count cell => if decide (cell ≠ 0) then count + 1 else count) c count =
  count + Z.of_nat (length (filter (fun v => v ≠ 0) c)).
Proof.
  induction c as [|x c IH]; intros count; simpl; [lia|].
  rewrite IH, filter_cons. case_decide; simpl; lia.
Qed.

Lemma length_filter_split (c : list Z) :
  Z.of_nat (length (filter (fun v => v ≠ 0) c)) +
  Z.of_nat (length (filter (fun v => v = 0) c)) = Z.of_nat (length c).
Proof.
  induction c as [|x c IH]; [done|]. rewrite !filter_cons.
  repeat case_decide; simpl length; try lia; naive_solver.
Qed.

Lemma filter_zero_nil (c : list Z) :
  filter (fun v => v = 0) c = [] <-> Forall (fun v => v ≠ 0) c.
Proof.
  induction c as [|x c IH]; [done|]. rewrite filter_cons, Forall_cons.
  case_decide; [|rewrite IH; tauto]. split; [done|]. tauto.
Qed.

(** X6.  [CellGroup.Count] is the number of non-zero cells of the group:
    together with the number of empty cells it makes up the length, so it
    lies between 0 and the length, and it is the length exactly when no
    cell is empty. *)
Theorem Count_non_empty (c : list Z) :
  Count c = Z.of_nat (length (filter (fun v => v ≠ 0) c)) /\
  Count c + Z.of_nat (length (filter (fun v => v = 0) c)) = Z.of_nat (length c) /\
  0 <= Count c <= Z.of_nat (length c) /\
  (Count c = Z.of_nat (length c) <-> Forall (fun v => v ≠ 0) c).
Proof.
  assert (Count c = Z.of_nat (length (filter (fun v => v ≠ 0) c))) as Hcount.
  { unfold Count. by rewrite Count_from. }
  pose proof (length_filter_split c) as Hsum.
  split; [done|]. split; [lia|]. split; [lia|].
  rewrite <- filter_zero_nil. split.
  - intros Hall. destruct (filter (fun v => v = 0) c); [done|]. simpl length in Hsum. lia.
  - intros Hnil. rewrite Hnil in Hsum. simpl in Hsum. lia.
Qed.



Lemma NumCounts_scan (cells : list Z) : forall (seen : list Z) (counts : list Z),
  length counts = 10%nat ->
  (forall v, 0 <= v <= 9 ->
     counts !! Z.to_nat v = Some (Z.of_nat (length (filter (fun x => x = v) seen)))) ->
  Forall (fun v => 0 <= v <= 9) cells ->
  exists counts',
    foreach (R := Empty_set) cells (fun cell counts =>
      match index counts cell with
      | Panic e => Abort e
      | Ok n => Next (<[Z.to_nat cell := n + 1]> counts)
      end) counts = Next counts' /\
    length counts' = 10%nat /\
    forall v, 0 <= v <= 9 ->
      counts' !! Z.to_nat v =
      Some (Z.of_nat (length (filter (fun x => x = v) (seen ++ cells)))).
Proof.
  induction cells as [|x cells IH]; intros seen counts Hlen Hcounts Hrange.
  { exists counts. by rewrite app_nil_r. }
  apply Forall_cons_1 in Hrange as [Hx Hrange].
  destruct (index_Ok counts x) as (n & Hn & Hn'); [lia|].
  rewrite foreach_cons, Hn.
  destruct (IH (seen ++ [x]) (<[Z.to_nat x := n + 1]> counts)) as (counts' & Hrun & ? & Hspec).
  - by rewrite length_insert.
  - intros v Hv. rewrite filter_app, length_app, filter_cons, filter_nil.
    destruct (decide (v = x)) as [->|Hne].
    + rewrite list_lookup_insert_eq by lia. rewrite decide_True by done.
      rewrite (Hcounts x Hx) in Hn'. injection Hn' as <-. f_equal. simpl. lia.
    + rewrite list_lookup_insert_ne by lia. rewrite decide_False by done.
      rewrite (Hcounts v Hv). f_equal. simpl. lia.
  - done.
  - exists counts'. rewrite <- app_assoc in Hspec. done.
Qed.

Lemma NumCounts_scan_panic (cells : list Z) : forall (counts : list Z),
  length counts = 10%nat ->
  Exists (fun v => ~ (0 <= v <= 9)) cells ->
  foreach (R := Empty_set) cells (fun cell counts =>
    match index counts cell with
    | Panic e => Abort e
    | Ok n => Next (<[Z.to_nat cell := n + 1]> counts)
    end) counts = Abort IndexOutOfRange.
Proof.
  induction cells as [|x cells IH]; intros counts Hlen Hbad.
  { by apply Exists_nil in Hbad. }
  rewrite foreach_cons.
  destruct (decide (0 <= x <= 9)) as [Hx|Hx].
  - destruct (index_Ok counts x) as (n & -> & _); [lia|].
    apply IH; [by rewrite length_insert|].
    apply Exists_cons in Hbad as [?|?]; done.
  - rewrite index_out_of_range by lia. done.
Qed.

Lemma NumCounts_concat (g : Grid) :
  NumCounts g =
  finish (foreach (concat g) (fun cell counts =>
    match index counts cell with
    | Panic e => Abort e
    | Ok n => Next (<[Z.to_nat cell := n + 1]> counts)
    end) (replicate 10 0)).
Proof.
  unfold NumCounts. f_equal.
  change (concat g) with (g ≫= id). by rewrite foreach_bind.
Qed.

(** X8.  [Grid.NumCounts] tallies the cells by value: on a grid of the
    data model entry [v] of the result is the number of cells equal to
    [v], entry 0 the number of empty cells.  A cell outside 0..9 is a
    run-time panic. *)
Theorem NumCounts_tally (g : Grid) :
  (is_grid g ->
   exists counts, NumCounts g = Ok counts /\ length counts = 10%nat /\
     (forall v, 0 <= v <= 9 ->
        counts !! Z.to_nat v =
        Some (Z.of_nat (length (filter (fun x => x = v) (concat g))))) /\
     counts !! 0%nat = Some (Z.of_nat (count_empty g))) /\
  (Exists (Exists (fun v => ~ (0 <= v <= 9))) g ->
   NumCounts g = Panic IndexOutOfRange).
Proof.
  rewrite NumCounts_concat. split.
  - intros Hg.
    destruct (NumCounts_scan (concat g) [] (replicate 10 0)) as (counts & -> & Hlen & Hspec).
    + done.
    + intros v Hv. rewrite lookup_replicate_2 by lia. done.
    + apply Forall_concat. destruct Hg as [_ Hrows].
      eapply Forall_impl; [exact Hrows|]. by intros row [_ ?].
    + exists counts. split; [done|]. split; [done|]. split; [done|].
      pose proof (Hspec 0 ltac:(lia)) as H0. change (Z.to_nat 0) with 0%nat in H0.
      rewrite H0. f_equal. f_equal. unfold count_empty.
      change ([] ++ concat g) with (concat g).
      clear. induction g as [|row g IH]; [done|].
      rewrite fmap_cons. cbn [concat sum_list sum_list_with].
      rewrite filter_app, length_app, IH. done.
  - intros Hbad. rewrite NumCounts_scan_panic; [done|done|].
    apply Exists_exists in Hbad as (row & Hrow & Hbad).
    apply Exists_exists in Hbad as (v & Hv & Hbad).
    apply Exists_exists. exists v. split; [|done].
    change (concat g) with (g ≫= id). apply list_elem_of_bind. eauto.
Qed.

Lemma NumCounts_tally_witness :
  is_grid partial /\
  (exists counts, NumCounts partial = Ok counts /\ length counts = 10%nat /\
     (forall v, 0 <= v <= 9 ->
        counts !! Z.to_nat v =
        Some (Z.of_nat (length (filter (fun x => x = v) (concat partial))))) /\
     counts !! 0%nat = Some (Z.of_nat (count_empty partial))) /\
  NumCounts (store zero_grid 0 0 10) = Panic IndexOutOfRange.
Proof.
  destruct (NumCounts_tally partial) as [Hok _].
  destruct (NumCounts_tally (store zero_grid 0 0 10)) as [_ Hpanic].
  split; [exact is_grid_partial|]. split; [exact (Hok is_grid_partial)|].
  apply Hpanic. apply Exists_cons_hd, Exists_cons_hd. lia.
Defined.

(** ** Moves *)

(** X9.  [Grid.Apply] writes one cell of a copy: inside the grid the
    result is 9x9, holds the move's value at the move's position and the
    cells of [g] everywhere else; a move outside the grid is a run-time
    panic. *)
Theorem Apply_one_cell (g : Grid) (m : Move) :
  grid_shape g ->
  (0 <= Row m < 9 /\ 0 <= Col m < 9 ->
     exists g', Apply g m = Ok g' /\ grid_shape g' /\
       cell g' (Z.to_nat (Row m)) (Z.to_nat (Col m)) = Some (Value m) /\
       forall r c, (r, c) ≠ (Z.to_nat (Row m), Z.to_nat (Col m)) ->
         cell g' r c = cell g r c) /\
  (~ (0 <= Row m < 9 /\ 0 <= Col m < 9) -> Apply g m = Panic IndexOutOfRange).
Proof.
  intros Hshape. unfold Apply. split.
  - intros [Hrow Hcol].
    destruct (index_Ok g (Row m)) as (rowCells & -> & Hr');
      [destruct Hshape as [-> _]; lia|].
    pose proof (grid_shape_row g _ _ Hshape Hr') as Hlen.
    destruct (index_Ok rowCells (Col m)) as (v & Hc & Hc'); [lia|].
    cbn [mbind result_bind]. rewrite Hc. cbn [mbind result_bind].
    eexists. split; [done|]. split; [by apply grid_shape_store|]. split.
    + apply cell_store_eq. unfold cell. rewrite Hr'. by exists v.
    + intros r c Hne. apply cell_store_ne. congruence.
  - intros Hout. destruct (decide (0 <= Row m < 9)) as [Hrow|Hrow].
    + destruct (index_Ok g (Row m)) as (rowCells & -> & Hr');
        [destruct Hshape as [-> _]; lia|].
      pose proof (grid_shape_row g _ _ Hshape Hr') as Hlen.
      cbn [mbind result_bind]. by rewrite index_out_of_range by lia.
    + by rewrite index_out_of_range by (destruct Hshape as [-> _]; lia).
Qed.

Lemma Apply_one_cell_witness :
  grid_shape partial /\
  exists g', Apply partial (mkMove 0 2 4) = Ok g' /\ grid_shape g' /\
    cell g' 0 2 = Some 4 /\
    forall r c, (r, c) ≠ (0%nat, 2%nat) -> cell g' r c = cell partial r c.
Proof.
  split; [exact grid_shape_partial|].
  destruct (Apply_one_cell partial (mkMove 0 2 4) grid_shape_partial) as [Hin _].
  apply Hin. simpl. lia.
Defined.

Lemma foreach_collect {A B} (f : A -> list B) (l : list A)
    (body : A -> list B -> flow (list B) Empty_set) : forall acc,
  (forall x acc, x ∈ l -> body x acc = Next (acc ++ f x)) ->
  foreach l body acc = Next (acc ++ (l ≫= f)).
Proof.
  induction l as [|x l IH]; intros acc Hbody.
  { simpl. by rewrite app_nil_r. }
  rewrite foreach_cons, Hbody by left. rewrite IH.
  - by rewrite bind_cons, app_assoc.
  - intros y acc' Hy. apply Hbody. by right.
Qed.

Lemma Possibilities_cells (g : Grid) :
  Possibilities g =
  finish (foreach (cells_of g) (fun '(row, col, cell) moves =>
    if decide (cell ≠ 0) then Next moves
    else
      foreach digits (fun i moves =>
        match Grid_Valid g with
        | Panic e => Abort e
        | Ok true => Next (moves ++ [mkMove (Z.of_nat row) (Z.of_nat col) i])
        | Ok false => Next moves
        end) moves) []).
Proof.
  unfold Possibilities. f_equal.
  apply (foreach_cells g (fun row col cell moves =>
    if decide (cell ≠ 0) then Next moves
    else foreach digits (fun i moves =>
      match Grid_Valid g with
      | Panic e => Abort e
      | Ok true => Next (moves ++ [mkMove (Z.of_nat row) (Z.of_nat col) i])
      | Ok false => Next moves
      end) moves)).
Qed.





(** [Possibilities] depends on the grid only through [Grid.Valid] of the
    grid itself. *)
Lemma Possibilities_fill (g : Grid) :
  is_grid g ->
  (valid_grid g /\ Possibilities g = Ok (fill_moves g)) \/
  (~ valid_grid g /\ Possibilities g = Ok []).
Proof.
  intros Hg. rewrite Possibilities_cells.
  destruct (Grid_Valid_valid_grid g Hg) as [[Hrun Hvalid]|[Hrun Hinvalid]]; rewrite Hrun.
  - left. split; [done|]. unfold fill_moves.
    rewrite (foreach_collect (fun '(row, col, cell) =>
      if decide (cell ≠ 0) then []
      else i ← digits; [mkMove (Z.of_nat row) (Z.of_nat col) i])); [done|].
    intros [[r c] v] acc _. case_decide; [by rewrite app_nil_r|].
    by apply foreach_collect.
  - right. split; [done|].
    rewrite (foreach_collect (fun _ => [])).
    + by rewrite bind_all_nil.
    + intros [[r c] v] acc _. case_decide; [by rewrite app_nil_r|].
      rewrite (foreach_collect (fun _ => [])); [|intros; by rewrite app_nil_r].
      by rewrite bind_all_nil, !app_nil_r.
Qed.

Lemma elem_of_fill_moves (g : Grid) (m : Move) :
  m ∈ fill_moves g <->
  exists row col, cell g row col = Some 0 /\
    m = mkMove (Z.of_nat row) (Z.of_nat col) (Value m) /\ 1 <= Value m <= 9.
Proof.
  unfold fill_moves. rewrite list_elem_of_bind. split.
  - intros ([[r c] v] & Hm & Hin). apply elem_of_cells_of in Hin.
    case_decide as Hv; [by apply elem_of_nil in Hm|].
    apply list_elem_of_bind in Hm as (i & Hm & Hi).
    apply list_elem_of_singleton in Hm. apply elem_of_digits in Hi.
    assert (v = 0) as -> by (destruct (decide (v = 0)); naive_solver).
    exists r, c. subst m. done.
  - intros (r & c & Hcell & Hm & Hv).
    exists (r, c, 0). split; [|by apply elem_of_cells_of].
    rewrite decide_False by naive_solver.
    apply list_elem_of_bind. exists (Value m).
    split; [rewrite Hm at 1; by apply list_elem_of_singleton|by apply elem_of_digits].
Qed.



Lemma groupMoves_scan (moves : list Move) :
  forall (seen : list Move) (grouped : list (list (list Move))),
  length grouped = 9%nat ->
  Forall (fun rowMoves => length rowMoves = 9%nat) grouped ->
  (forall r c, (r < 9)%nat -> (c < 9)%nat ->
     grouped !! r ≫= (fun rowMoves => rowMoves !! c) = Some (filter (targets r c) seen)) ->
  Forall on_grid moves ->
  exists grouped',
    foreach (R := Empty_set) moves (fun move grouped =>
      match rowMoves ← index grouped (Row move); index rowMoves (Col move) with
      | Panic e => Abort e
      | Ok ms =>
          Next (alter (fun rowMoves => <[Z.to_nat (Col move) := ms ++ [move]]> rowMoves)
                  (Z.to_nat (Row move)) grouped)
      end) grouped = Next grouped' /\
    length grouped' = 9%nat /\
    Forall (fun rowMoves => length rowMoves = 9%nat) grouped' /\
    forall r c, (r < 9)%nat -> (c < 9)%nat ->
      grouped' !! r ≫= (fun rowMoves => rowMoves !! c) =
      Some (filter (targets r c) (seen ++ moves)).
Proof.
  induction moves as [|m moves IH]; intros seen grouped Hlen Hrows Hinv Hrange.
  { exists grouped. rewrite app_nil_r. done. }
  apply Forall_cons_1 in Hrange as [[Hr Hc] Hrange].
  destruct (index_Ok grouped (Row m)) as (rowMoves & HR & HR'); [lia|].
  assert (length rowMoves = 9%nat) as Hlen' by (by eapply Forall_lookup_1 in Hrows).
  destruct (index_Ok rowMoves (Col m)) as (ms & HC & HC'); [lia|].
  rewrite foreach_cons, HR. cbn [mbind result_bind]. rewrite HC.
  assert (ms = filter (targets (Z.to_nat (Row m)) (Z.to_nat (Col m))) seen) as Hms.
  { specialize (Hinv (Z.to_nat (Row m)) (Z.to_nat (Col m)) ltac:(lia) ltac:(lia)).
    rewrite HR' in Hinv. simpl in Hinv. congruence. }
  destruct (IH (seen ++ [m])
    (alter (fun rowMoves => <[Z.to_nat (Col m) := ms ++ [m]]> rowMoves)
       (Z.to_nat (Row m)) grouped)) as (grouped' & Hrun & ? & ? & Hspec).
  - by rewrite length_alter.
  - apply Forall_alter; [done|]. intros ? _ ?. by rewrite length_insert.
  - intros r c Hrlt Hclt. rewrite filter_app, filter_cons, filter_nil.
    rewrite list_lookup_alter. case_decide as Hrow.
    + subst r. rewrite HR'. cbn [fmap option_fmap option_map mbind option_bind].
      rewrite list_lookup_insert. case_decide as Hcol.
      * destruct Hcol as [<- _]. rewrite decide_True by (unfold targets; lia).
        by rewrite Hms.
      * rewrite decide_False by (unfold targets; lia). rewrite app_nil_r.
        specialize (Hinv (Z.to_nat (Row m)) c Hrlt Hclt). by rewrite HR' in Hinv.
    + rewrite decide_False by (unfold targets; lia). rewrite app_nil_r. by apply Hinv.
  - done.
  - exists grouped'. rewrite <- app_assoc in Hspec. done.
Qed.

Lemma groupMoves_scan_panic (moves : list Move) :
  forall (grouped : list (list (list Move))),
  length grouped = 9%nat ->
  Forall (fun rowMoves => length rowMoves = 9%nat) grouped ->
  Exists (fun m => ~ on_grid m) moves ->
  foreach (R := Empty_set) moves (fun move grouped =>
    match rowMoves ← index grouped (Row move); index rowMoves (Col move) with
    | Panic e => Abort e
    | Ok ms =>
        Next (alter (fun rowMoves => <[Z.to_nat (Col move) := ms ++ [move]]> rowMoves)
                (Z.to_nat (Row move)) grouped)
    end) grouped = Abort IndexOutOfRange.
Proof.
  induction moves as [|m moves IH]; intros grouped Hlen Hrows Hbad.
  { by apply Exists_nil in Hbad. }
  rewrite foreach_cons.
  destruct (decide (0 <= Row m < 9)) as [Hr|Hr]; cycle 1.
  { by rewrite index_out_of_range by lia. }
  destruct (index_Ok grouped (Row m)) as (rowMoves & -> & HR'); [lia|].
  assert (length rowMoves = 9%nat) as Hlen' by (by eapply Forall_lookup_1 in Hrows).
  cbn [mbind result_bind].
  destruct (decide (0 <= Col m < 9)) as [Hc|Hc]; cycle 1.
  { by rewrite index_out_of_range by lia. }
  destruct (index_Ok rowMoves (Col m)) as (ms & -> & _); [lia|].
  apply IH.
  - by rewrite length_alter.
  - apply Forall_alter; [done|]. intros ? _ ?. by rewrite length_insert.
  - apply Exists_cons in Hbad as [Hbad|?]; [|done]. destruct Hbad. done.
Qed.

(** X11.  [groupMoves] sorts the moves into a 9x9 table of buckets: the
    bucket at (r, c) holds the moves with that row and column, in their
    order in the input.  A move outside the grid is a run-time panic. *)
Theorem groupMoves_buckets (moves : list Move) :
  (Forall on_grid moves ->
   exists grouped, groupMoves moves = Ok grouped /\
     length grouped = 9%nat /\
     Forall (fun rowMoves => length rowMoves = 9%nat) grouped /\
     forall r c, (r < 9)%nat -> (c < 9)%nat ->
       grouped !! r ≫= (fun rowMoves => rowMoves !! c) =
       Some (filter (targets r c) moves)) /\
  (Exists (fun m => ~ on_grid m) moves -> groupMoves moves = Panic IndexOutOfRange).
Proof.
  unfold groupMoves. split.
  - intros Hmoves.
    destruct (groupMoves_scan moves [] (replicate 9 (replicate 9 [])))
      as (grouped & -> & ? & ? & ?); [done|by apply Forall_replicate| |done|by exists grouped].
    intros r c Hr Hc. rewrite lookup_replicate_2 by done. cbn [mbind option_bind].
    by rewrite lookup_replicate_2 by done.
  - intros Hbad. rewrite groupMoves_scan_panic; [done|done|by apply Forall_replicate|done].
Qed.

Lemma groupMoves_buckets_witness :
  Forall on_grid [mkMove 0 2 4; mkMove 1 1 7; mkMove 0 2 9] /\
  (exists grouped,
     groupMoves [mkMove 0 2 4; mkMove 1 1 7; mkMove 0 2 9] = Ok grouped /\
     grouped !! 0%nat ≫= (fun rowMoves => rowMoves !! 2%nat) =
     Some (filter (targets 0 2) [mkMove 0 2 4; mkMove 1 1 7; mkMove 0 2 9])) /\
  groupMoves [mkMove 0 2 4; mkMove 9 0 1] = Panic IndexOutOfRange.
Proof.
  assert (Forall on_grid [mkMove 0 2 4; mkMove 1 1 7; mkMove 0 2 9]) as Hmoves.
  { repeat constructor; simpl; lia. }
  destruct (groupMoves_buckets [mkMove 0 2 4; mkMove 1 1 7; mkMove 0 2 9]) as [Hok _].
  destruct (groupMoves_buckets [mkMove 0 2 4; mkMove 9 0 1]) as [_ Hpanic].
  split; [exact Hmoves|]. split.
  - destruct (Hok Hmoves) as (grouped & Hrun & _ & _ & Hcells).
    exists grouped. split; [exact Hrun|]. apply Hcells; lia.
  - apply Hpanic. apply Exists_cons_tl, Exists_cons_hd. unfold on_grid. simpl. lia.
Defined.

(** ** Ranking *)

Lemma RowAt_inside (g : Grid) (i : Z) :
  grid_shape g -> 0 <= i < 9 ->
  RowAt g i = Ok (group_cells g (row_positions (Z.to_nat i))).
Proof.
  intros Hshape Hi. explode_grid g Hshape.
  assert (i = 0 \/ i = 1 \/ i = 2 \/ i = 3 \/ i = 4 \/ i = 5 \/ i = 6 \/ i = 7 \/ i = 8)
    as Hcases by lia.
  repeat destruct Hcases as [->|Hcases]; try subst i; reflexivity.
Qed.

Lemma ColumnAt_inside (g : Grid) (i : Z) :
  grid_shape g -> 0 <= i < 9 ->
  ColumnAt g i = Ok (group_cells g (column_positions (Z.to_nat i))).
Proof.
  intros Hshape Hi. explode_grid g Hshape.
  assert (i = 0 \/ i = 1 \/ i = 2 \/ i = 3 \/ i = 4 \/ i = 5 \/ i = 6 \/ i = 7 \/ i = 8)
    as Hcases by lia.
  repeat destruct Hcases as [->|Hcases]; try subst i; reflexivity.
Qed.

Lemma BoxAt_inside (g : Grid) (row col : Z) (v : Z) :
  grid_shape g -> 0 <= row < 9 -> 0 <= col < 9 ->
  cell g (Z.to_nat row) (Z.to_nat col) = Some v ->
  BoxAt g row col = Ok (replicate 9 v).
Proof.
  intros Hshape Hrow Hcol Hcell.
  destruct (index_Ok g row) as (rowCells & Hr & Hr'); [destruct Hshape as [-> _]; lia|].
  pose proof (grid_shape_row g _ _ Hshape Hr') as Hlen.
  destruct (index_Ok rowCells col) as (w & Hc & Hc'); [lia|].
  assert (w = v) as -> by (unfold cell in Hcell; rewrite Hr' in Hcell; simpl in Hcell; congruence).
  unfold BoxAt. cbn [seqZ Z.to_nat Pos.to_nat Pos.iter_op Nat.add seq fmap list_fmap foreach].
  rewrite Hr. cbn [mbind result_bind]. rewrite Hc. reflexivity.
Qed.

Lemma Count_replicate_nine (v : Z) :
  Count (replicate 9 v) = (if decide (v = 0) then 0 else 9).
Proof.
  unfold Count. case_decide as Hv; [by subst v|].
  cbn [replicate fold_left]. rewrite !decide_True by done. done.
Qed.

Lemma digit_moves (r c : Z) :
  (i ← digits; [mkMove r c i]) =
  [mkMove r c 1; mkMove r c 2; mkMove r c 3; mkMove r c 4; mkMove r c 5;
   mkMove r c 6; mkMove r c 7; mkMove r c 8; mkMove r c 9].
Proof. reflexivity. Qed.

(** The moves of [fill_moves] come in blocks of nine per cell. *)
Lemma length_filter_targets_fill (r c : nat) (cells : list (nat * nat * Z)) :
  exists k : nat,
    length (filter (targets r c) (cells ≫= fun '(row, col, cell) =>
      if decide (cell ≠ 0) then []
      else i ← digits; [mkMove (Z.of_nat row) (Z.of_nat col) i])) = (9 * k)%nat.
Proof.
  induction cells as [|[[r' c'] v] cells [k IH]]; [by exists 0%nat|].
  rewrite bind_cons, filter_app, length_app, IH.
  case_decide; [by exists k|].
  destruct (decide (r' = r /\ c' = c)) as [[-> ->]|Hne].
  - exists (S k). rewrite digit_moves.
    rewrite !filter_cons_True by (unfold targets; simpl; lia). simpl. lia.
  - exists k. rewrite digit_moves.
    rewrite !filter_cons_False by (unfold targets; simpl; lia). simpl. lia.
Qed.

Lemma foreach_no_single (moveGrid : list (list (list Move))) :
  Forall (Forall (fun moves : list Move => length moves ≠ 1%nat)) moveGrid ->
  foreach moveGrid (fun row s =>
    foreach row (fun moves (s : unit) =>
      if decide (length moves = 1%nat) then Return 0 else Next s) s) tt = Next tt.
Proof.
  induction 1 as [|row moveGrid Hrow _ IH]; [done|].
  rewrite foreach_cons.
  assert (foreach row (fun moves (s : unit) =>
            if decide (length moves = 1%nat) then Return 0 else Next s) tt
          = @Next unit Z tt) as ->; [|done].
  clear IH. induction Hrow as [|moves row Hmoves _ IH]; [done|].
  rewrite foreach_cons. by rewrite decide_False.
Qed.

(** What [Rank] computes on the data model. *)
Lemma Rank_sum (m : Move) (g : Grid) :
  is_grid g -> move_in_range m ->
  Rank m g =
  Ok (Count (group_cells (store g (Z.to_nat (Row m)) (Z.to_nat (Col m)) (Value m))
               (row_positions (Z.to_nat (Row m)))) +
      Count (group_cells (store g (Z.to_nat (Row m)) (Z.to_nat (Col m)) (Value m))
               (column_positions (Z.to_nat (Col m)))) +
      (if decide (Value m = 0) then 0 else 9) +
      Z.of_nat (length (filter (fun x => x = Value m)
         (concat (store g (Z.to_nat (Row m)) (Z.to_nat (Col m)) (Value m)))))).
Proof.
  intros Hg Hm. unfold Rank.
  destruct (Apply_Ok g m Hg Hm) as [-> Happlied]. cbn [mbind result_bind].
  set (applied := store g (Z.to_nat (Row m)) (Z.to_nat (Col m)) (Value m)) in *.
  pose proof (is_grid_shape applied Happlied) as Hshape.
  destruct Hm as (Hr & Hc & Hv).
  (* the possibilities and their buckets *)
  assert (exists P, Possibilities applied = Ok P /\ Forall on_grid P /\
            forall r c, exists k : nat, length (filter (targets r c) P) = (9 * k)%nat)
    as (P & -> & Hon & Hblocks).
  { destruct (Possibilities_fill applied Happlied) as [[_ ->]|[_ ->]].
    - exists (fill_moves applied). split; [done|]. split.
      + apply Forall_forall. intros m' Hm'.
        apply elem_of_fill_moves in Hm' as (r & c & Hcell & -> & _).
        apply (is_grid_cell applied) in Hcell as (? & ? & _); [|done].
        unfold on_grid. simpl. lia.
      + intros r c. apply length_filter_targets_fill.
    - exists []. split; [done|]. split; [constructor|]. intros r c. by exists 0%nat. }
  cbn [mbind result_bind]. unfold groupMoves.
  destruct (groupMoves_scan P [] (replicate 9 (replicate 9 [])))
    as (grouped & -> & Hlen & Hrows & Hbuckets); [done|by apply Forall_replicate| |done|].
  { intros r c ? ?. rewrite lookup_replicate_2 by done. cbn [mbind option_bind].
    by rewrite lookup_replicate_2 by done. }
  cbn [finish mbind result_bind].
  rewrite foreach_no_single; cycle 1.
  { apply Forall_forall. intros rowMoves Hin.
    apply list_elem_of_lookup in Hin as [r Hrow].
    assert (r < 9)%nat as Hrlt by (apply lookup_lt_Some in Hrow; lia).
    assert (length rowMoves = 9%nat) as Hlen' by (by eapply Forall_lookup_1 in Hrows).
    apply Forall_forall. intros ms Hms.
    apply list_elem_of_lookup in Hms as [c Hms].
    assert (c < 9)%nat as Hclt by (apply lookup_lt_Some in Hms; lia).
    specialize (Hbuckets r c Hrlt Hclt). rewrite Hrow in Hbuckets.
    cbn [mbind option_bind] in Hbuckets. rewrite Hms in Hbuckets.
    injection Hbuckets as ->. destruct (Hblocks r c) as [k Hk]. simpl in Hk. lia. }
  (* the four counts *)
  rewrite (RowAt_inside applied (Row m) Hshape Hr). cbn [mbind result_bind].
  rewrite (ColumnAt_inside applied (Col m) Hshape Hc). cbn [mbind result_bind].
  assert (cell applied (Z.to_nat (Row m)) (Z.to_nat (Col m)) = Some (Value m)) as Hcell.
  { apply cell_store_eq. apply is_grid_cell_Some; [done|lia..]. }
  rewrite (BoxAt_inside applied (Row m) (Col m) (Value m) Hshape Hr Hc Hcell).
  cbn [mbind result_bind]. rewrite Count_replicate_nine.
  rewrite NumCounts_concat.
  destruct (NumCounts_scan (concat applied) [] (replicate 10 0))
    as (counts & -> & Hclen & Hcounts).
  { done. }
  { intros v ?. by rewrite lookup_replicate_2 by lia. }
  { apply Forall_concat. destruct Happlied as [_ Happlied].
    eapply Forall_impl; [exact Happlied|]. by intros row [_ ?]. }
  cbn [finish mbind result_bind].
  destruct (index_Ok counts (Value m)) as (n & -> & Hn); [lia|].
  rewrite (Hcounts (Value m) Hv) in Hn. injection Hn as <-. reflexivity.
Qed.

Lemma length_elem_of {A} (l : list A) (x : A) : x ∈ l -> (1 <= length l)%nat.
Proof. destruct l; [by intros ?%elem_of_nil|simpl; lia]. Qed.

Lemma Count_length (c : list Z) :
  Count c = Z.of_nat (length (filter (fun v => v ≠ 0) c)).
Proof. unfold Count. by rewrite Count_from. Qed.

(** X12.  What [Move.Rank] returns on the data model: the number of
    non-empty cells of the move's row plus that of its column, both after
    the move, plus 9 when the move places a digit (0 when it places 0),
    plus the number of cells holding the move's value after the move.
    The "0 for a forced follow-up" branch is never taken, because
    [Possibilities] lists nine moves or none per cell: a move that places
    a digit ranks at least 12. *)
Theorem Rank_value (m : Move) (g : Grid) :
  is_grid g -> move_in_range m ->
  Rank m g =
  Ok (Count (group_cells (store g (Z.to_nat (Row m)) (Z.to_nat (Col m)) (Value m))
               (row_positions (Z.to_nat (Row m)))) +
      Count (group_cells (store g (Z.to_nat (Row m)) (Z.to_nat (Col m)) (Value m))
               (column_positions (Z.to_nat (Col m)))) +
      (if decide (Value m = 0) then 0 else 9) +
      Z.of_nat (length (filter (fun x => x = Value m)
         (concat (store g (Z.to_nat (Row m)) (Z.to_nat (Col m)) (Value m)))))) /\
  (Value m ≠ 0 -> exists rank, Rank m g = Ok rank /\ 12 <= rank).
Proof.
  intros Hg Hm. split; [by apply Rank_sum|].
  intros Hnz. rewrite (Rank_sum m g Hg Hm). eexists. split; [done|].
  destruct (Apply_Ok g m Hg Hm) as [_ Happlied].
  set (applied := store g (Z.to_nat (Row m)) (Z.to_nat (Col m)) (Value m)) in *.
  destruct Hm as (Hr & Hc & Hv).
  assert (cell applied (Z.to_nat (Row m)) (Z.to_nat (Col m)) = Some (Value m)) as Hcell.
  { apply cell_store_eq. apply is_grid_cell_Some; [done|lia..]. }
  pose proof (cell_cell_at applied (Z.to_nat (Row m), Z.to_nat (Col m)) _ Hcell) as Hat.
  rewrite decide_False by done. rewrite !Count_length.
  assert (1 <= length (filter (fun v : Z => v ≠ 0%Z)
            (group_cells applied (row_positions (Z.to_nat (Row m))))))%nat as Hrow.
  { apply (length_elem_of _ (Value m)). apply list_elem_of_filter. split; [done|].
    unfold group_cells. rewrite <- Hat. apply list_elem_of_fmap_2.
    apply elem_of_row_positions. simpl. lia. }
  assert (1 <= length (filter (fun v : Z => v ≠ 0%Z)
            (group_cells applied (column_positions (Z.to_nat (Col m))))))%nat as Hcol.
  { apply (length_elem_of _ (Value m)). apply list_elem_of_filter. split; [done|].
    unfold group_cells. rewrite <- Hat. apply list_elem_of_fmap_2.
    apply elem_of_column_positions. simpl. lia. }
  assert (1 <= length (filter (fun x : Z => x = Value m) (concat applied)))%nat as Hnum.
  { apply (length_elem_of _ (Value m)). apply list_elem_of_filter. split; [done|].
    unfold cell in Hcell.
    destruct (applied !! Z.to_nat (Row m)) as [rowCells|] eqn:Hrow'; [|done].
    simpl in Hcell. change (concat applied) with (applied ≫= id).
    apply list_elem_of_bind. exists rowCells.
    split; by eapply list_elem_of_lookup_2. }
  lia.
Qed.

Lemma Rank_value_witness :
  is_grid zero_grid /\ move_in_range (mkMove 0 0 1) /\
  exists rank, Rank (mkMove 0 0 1) zero_grid = Ok rank /\ 12 <= rank.
Proof.
  assert (move_in_range (mkMove 0 0 1)) as Hm by (unfold move_in_range; simpl; lia).
  split; [exact is_grid_zero_grid|]. split; [exact Hm|].
  destruct (Rank_value (mkMove 0 0 1) zero_grid is_grid_zero_grid Hm) as [_ Hbound].
  apply Hbound. simpl. lia.
Defined.

(** ** Sorting and hints *)

Lemma Sort_ranks_values (p : list Move) g : forall acc,
  is_grid g -> Forall move_in_range p ->
  exists ranks,
    foreach (R := Empty_set) p (fun move ranks =>
      match Rank move g with
      | Panic e => Abort e
      | Ok rank => Next (ranks ++ [(move, rank)])
      end) acc = Next (acc ++ ranks) /\
    fst <$> ranks = p /\
    Forall (fun x : Move * Z => Rank x.1 g = Ok x.2) ranks.
Proof.
  intros acc Hg. revert acc.
  induction p as [|m p IH]; intros acc Hp.
  { exists []. by rewrite app_nil_r. }
  apply Forall_cons_1 in Hp as [Hm Hp].
  destruct (Rank_Ok m g Hg Hm) as [rank Hrank].
  destruct (IH (acc ++ [(m, rank)]) Hp) as (ranks & Hrun & Hfst & Hall).
  exists ((m, rank) :: ranks). split; [|split].
  - simpl. rewrite Hrank, Hrun. by rewrite <- app_assoc.
  - by rewrite fmap_cons, Hfst.
  - by constructor.
Qed.

(** [Sort] is [SortFunc] on the moves paired with their ranks. *)
Lemma Sort_sorted_ranks
    (SortFunc : forall A : Type, (A -> A -> Z) -> list A -> list A)
    (p : list Move) (g : Grid) :
  (forall (A : Type) (cmp : A -> A -> Z) (l : list A), SortFunc A cmp l ≡ₚ l) ->
  is_grid g -> Forall move_in_range p ->
  exists ranks,
    fst <$> ranks = p /\
    Forall (fun x : Move * Z => Rank x.1 g = Ok x.2) ranks /\
    Sort SortFunc p g =
    Ok (fst <$> SortFunc (Move * Z)%type (fun a b => a.2 - b.2) ranks).
Proof.
  intros Hperm Hg Hp. unfold Sort.
  destruct (Sort_ranks_values p g [] Hg Hp) as (ranks & -> & Hfst & Hall).
  exists ranks. split; [done|]. split; [done|]. cbn [mbind result_bind finish app].
  pose proof (Sort_write_back (SortFunc _ (fun a b : Move * Z => a.2 - b.2) ranks) [] p)
    as Hback.
  simpl in Hback. unfold indexed. rewrite Hback; [done|].
  by rewrite Hperm, <- Hfst, length_fmap.
Qed.

(** X13.  [Possibilities.Sort] does not panic on the data model and
    returns the same moves in another order; when [SortFunc] sorts by its
    comparison, the ranks of the returned moves ascend. *)
Theorem Sort_ascending_ranks
    (SortFunc : forall A : Type, (A -> A -> Z) -> list A -> list A)
    (p : list Move) (g : Grid) :
  (forall (A : Type) (cmp : A -> A -> Z) (l : list A), SortFunc A cmp l ≡ₚ l) ->
  (forall l : list (Move * Z),
     StronglySorted (fun a b => a.2 <= b.2)
       (SortFunc (Move * Z)%type (fun a b => a.2 - b.2) l)) ->
  is_grid g -> Forall move_in_range p ->
  exists (p' : list Move) (ranks : list Z),
    Sort SortFunc p g = Ok p' /\ p' ≡ₚ p /\
    Forall2 (fun m rank => Rank m g = Ok rank) p' ranks /\
    StronglySorted Z.le ranks.
Proof.
  intros Hperm Hsorted Hg Hp.
  destruct (Sort_sorted_ranks SortFunc p g Hperm Hg Hp) as (ranks & Hfst & Hall & ->).
  set (sorted := SortFunc (Move * Z)%type (fun a b => a.2 - b.2) ranks).
  assert (Forall (fun x : Move * Z => Rank x.1 g = Ok x.2) sorted) as Hall'.
  { unfold sorted. by rewrite Hperm. }
  exists (fst <$> sorted), (snd <$> sorted). split; [done|]. split; [|split].
  - unfold sorted. by rewrite Hperm, Hfst.
  - apply Forall2_fmap, Forall_Forall2_diag. exact Hall'.
  - specialize (Hsorted ranks). fold sorted in Hsorted.
    clear -Hsorted. induction Hsorted as [|x l Hl IH Hx]; [constructor|].
    rewrite fmap_cons. constructor; [done|]. by apply Forall_fmap.
Qed.

Lemma insert_by_rank_sorted (x : Move * Z) (l : list (Move * Z)) :
  StronglySorted (fun a b => a.2 <= b.2) l ->
  StronglySorted (fun a b => a.2 <= b.2)
    (insert_by (fun a b : Move * Z => a.2 - b.2) x l).
Proof.
  induction 1 as [|y l Hl IH Hy]; simpl; [repeat constructor|].
  case_decide as Hxy.
  - constructor; [by constructor|]. constructor; [lia|].
    eapply Forall_impl; [exact Hy|]. simpl. intros; lia.
  - constructor; [done|]. rewrite insert_by_Permutation. constructor; [lia|done].
Qed.

Lemma insertion_sort_rank_sorted (l : list (Move * Z)) :
  StronglySorted (fun a b => a.2 <= b.2)
    (insertion_sort (Move * Z) (fun a b => a.2 - b.2) l).
Proof.
  unfold insertion_sort. induction l as [|x l IH]; simpl; [constructor|].
  by apply insert_by_rank_sorted.
Qed.

Lemma Sort_ascending_ranks_witness :
  exists (p' : list Move) (ranks : list Z),
    Sort insertion_sort [mkMove 0 2 4; mkMove 1 1 7] partial = Ok p' /\
    p' ≡ₚ [mkMove 0 2 4; mkMove 1 1 7] /\
    Forall2 (fun m rank => Rank m partial = Ok rank) p' ranks /\
    StronglySorted Z.le ranks.
Proof.
  apply (Sort_ascending_ranks insertion_sort [mkMove 0 2 4; mkMove 1 1 7] partial).
  - exact insertion_sort_Permutation.
  - exact insertion_sort_rank_sorted.
  - exact is_grid_partial.
  - repeat constructor; simpl; lia.
Defined.



(** X15.  A hint is a step towards [later]: the move [Hint] returns
    targets a cell that is empty in [early] and carries the digit of
    [later]; applying it to [early] does not panic and gives a grid of the
    data model with fewer empty cells, which [later] still extends when it
    extended [early]. *)
Theorem Hint_step
    (SortFunc : forall A : Type, (A -> A -> Z) -> list A -> list A)
    (early later : Grid) (m : Move) :
  (forall (A : Type) (cmp : A -> A -> Z) (l : list A), SortFunc A cmp l ≡ₚ l) ->
  is_grid early -> is_grid later ->
  Hint SortFunc early later = Ok m ->
  cell early (Z.to_nat (Row m)) (Z.to_nat (Col m)) = Some 0 /\
  cell later (Z.to_nat (Row m)) (Z.to_nat (Col m)) = Some (Value m) /\
  Value m ≠ 0 /\
  exists g', Apply early m = Ok g' /\ is_grid g' /\
    (count_empty g' < count_empty early)%nat /\
    (extends early later -> extends g' later).
Proof.
  intros Hperm Hearly Hlater Hrun.
  destruct (decide (hint_candidates early later = [])) as [Hnone|Hsome].
  { rewrite (Hint_no_moves SortFunc early later Hearly Hlater Hnone) in Hrun. done. }
  destruct (Hint_some_move SortFunc Hperm early later Hearly Hlater Hsome)
    as (m' & Hrun' & Hin).
  assert (m' = m) as -> by congruence.
  apply elem_of_hint_candidates in Hin as (r & c & v & -> & He & Hl & Hv).
  simpl. rewrite !Nat2Z.id. split; [done|]. split; [done|]. split; [done|].
  destruct (is_grid_cell later r c v Hlater Hl) as (Hr & Hc & Hrange).
  assert (move_in_range (mkMove (Z.of_nat r) (Z.of_nat c) v)) as Hm
    by (unfold move_in_range; simpl; lia).
  destruct (Apply_Ok early _ Hearly Hm) as [Happly Hgrid].
  simpl in Happly, Hgrid. rewrite !Nat2Z.id in Happly, Hgrid.
  exists (store early r c v). split; [done|]. split; [done|]. split.
  - by apply count_empty_store.
  - intros Hext. apply store_extends; [by rewrite He|done..].
Qed.

Lemma Hint_step_witness :
  cell partial 0 2 = Some 0 /\ cell (store partial 0 2 4) 0 2 = Some 4 /\
  exists g', Apply partial (mkMove 0 2 4) = Ok g' /\ is_grid g' /\
    (count_empty g' < count_empty partial)%nat /\
    (extends partial (store partial 0 2 4) -> extends g' (store partial 0 2 4)).
Proof.
  assert (is_grid (store partial 0 2 4)) as Hlater.
  { apply is_grid_store; [exact is_grid_partial|lia]. }
  destruct (Hint_step insertion_sort partial (store partial 0 2 4) (mkMove 0 2 4)
              insertion_sort_Permutation is_grid_partial Hlater)
    as (He & Hl & _ & Hstep); [by vm_compute|].
  exact (conj He (conj Hl Hstep)).
Defined.

(** ** Solving: which completion is returned *)

Lemma grid_ext (a b : Grid) :
  is_grid a -> is_grid b -> (forall r c, cell a r c = cell b r c) -> a = b.
Proof.
  intros Ha Hb Hcell. apply list_eq. intros r.
  destruct (a !! r) as [ra|] eqn:Hra, (b !! r) as [rb|] eqn:Hrb.
  - f_equal. apply list_eq. intros c. specialize (Hcell r c).
    unfold cell in Hcell. by rewrite Hra, Hrb in Hcell.
  - apply lookup_lt_Some in Hra. apply lookup_ge_None in Hrb.
    destruct Ha, Hb. lia.
  - apply lookup_lt_Some in Hrb. apply lookup_ge_None in Hra.
    destruct Ha, Hb. lia.
  - done.
Qed.

Lemma full_extends_eq g s : is_grid g -> is_grid s -> full g -> extends g s -> s = g.
Proof.
  intros Hg Hs Hfull Hext. apply grid_ext; [done..|]. intros r c.
  destruct (cell g r c) as [v|] eqn:Hv.
  - apply Hext; [done|]. by apply (Hfull r c).
  - destruct (cell s r c) as [w|] eqn:Hw; [|done].
    destruct (is_grid_cell s r c w Hs Hw) as (Hr & Hc & _).
    destruct (is_grid_cell_Some g r c Hg Hr Hc) as [v' ?]. congruence.
Qed.






Lemma Backtrack_completion g s :
  is_grid g -> Backtrack g = Ok (s, true) -> completion g s.
Proof.
  intros Hg Hrun.
  destruct (Backtrack_depth_spec 81 g Hg (count_empty_le g (is_grid_shape g Hg)))
    as [(s1 & Hrun1 & Hcompl)|[Hrun1 _]]; fold (Backtrack g) in Hrun1;
    [|congruence].
  by assert (s1 = s) as -> by congruence.
Qed.

Lemma completion_partial_filled : completion partial filled.
Proof. exact (Backtrack_completion partial filled is_grid_partial Backtrack_partial). Qed.



(** X17.  Solving is idempotent: a grid that [Backtrack] returned with
    [true] is returned unchanged, again with [true], when handed back to
    [Backtrack]. *)
Theorem Backtrack_idempotent (g s : Grid) :
  is_grid g -> Backtrack g = Ok (s, true) -> Backtrack s = Ok (s, true).
Proof.
  intros Hg Hrun.
  destruct (Backtrack_completion g s Hg Hrun) as (Hs & Hvalid & Hfull & _).
  destruct (Backtrack_depth_spec 81 s Hs (count_empty_le s (is_grid_shape s Hs)))
    as [(s2 & Hrun2 & Hs2grid & _ & _ & Hext)|[_ Hnone]].
  - fold (Backtrack s) in Hrun2.
    by rewrite (full_extends_eq s s2 Hs Hs2grid Hfull Hext) in Hrun2.
  - destruct (Hnone s). split; [done|]. split; [done|]. split; [done|].
    apply extends_refl.
Qed.

Lemma Backtrack_idempotent_witness :
  is_grid partial /\ Backtrack partial = Ok (filled, true) /\
  Backtrack filled = Ok (filled, true).
Proof.
  split; [exact is_grid_partial|]. split; [exact Backtrack_partial|].
  exact (Backtrack_idempotent partial filled is_grid_partial Backtrack_partial).
Defined.

(** ** Solving: the group based draft *)

Lemma Grid_Valid_groups_eq g : is_grid g -> Grid_Valid_groups g = Grid_Valid g.
Proof.
  intros Hg.
  by destruct (Grid_Valid_groups_valid_grid g Hg) as [[-> ?]|[-> ?]],
    (Grid_Valid_valid_grid g Hg) as [[-> ?]|[-> ?]].
Qed.

Lemma Backtrack_groups_body_agree rec1 rec2 g :
  is_grid g ->
  (forall g', is_grid g' -> (count_empty g' < count_empty g)%nat ->
     rec1 g' = rec2 g') ->
  Backtrack_groups_body rec1 g = Backtrack_body rec2 g.
Proof.
  intros Hg Hrec. unfold Backtrack_groups_body, Backtrack_body.
  rewrite (Grid_Valid_groups_eq g Hg).
  destruct (Grid_Valid g) as [[|]|]; [|done..].
  rewrite !(foreach_cells g (Backtrack_cell _ g)).
  rewrite (foreach_ext (cells_of g) _
             (fun '(r, c, v) s => Backtrack_cell rec2 g r c v s)); [done|].
  intros [[r c] v] s Hin. unfold Backtrack_cell. case_decide as Hv; [done|].
  assert (v = 0) as -> by (destruct (decide (v = 0)); naive_solver).
  apply elem_of_cells_of in Hin.
  rewrite (foreach_ext digits _ (Backtrack_digit rec2 g r c)); [done|].
  intros i s' Hi. unfold Backtrack_digit. apply elem_of_digits in Hi.
  rewrite Hrec; [done| |].
  - apply is_grid_store; [done|lia].
  - apply count_empty_store; [done|lia].
Qed.

Lemma Backtrack_groups_depth_agree d : forall g,
  is_grid g -> Backtrack_groups_depth d g = Backtrack_depth d g.
Proof.
  induction d as [|d IH]; intros g Hg; simpl.
  - by apply Backtrack_groups_body_agree.
  - apply Backtrack_groups_body_agree; [done|]. intros g' Hg' _. by apply IH.
Qed.

(** X18.  The solver of the group based draft and the solver of the
    seen-table drafts return the same grid and the same flag on every grid
    of the data model. *)
Theorem Backtrack_drafts_agree (g : Grid) :
  is_grid g -> Backtrack_groups g = Backtrack g.
Proof. apply Backtrack_groups_depth_agree. Qed.

Lemma Backtrack_drafts_agree_witness :
  is_grid filled /\ Backtrack_groups filled = Backtrack filled.
Proof.
  split; [exact is_grid_filled|].
  exact (Backtrack_drafts_agree filled is_grid_filled).
Defined.

(** ** Validity: what it depends on *)

Lemma peer_sym p q : peer p q -> peer q p.
Proof. unfold peer. naive_solver. Qed.

Lemma Grid_Valid_true_conflict_free g :
  is_grid g -> Grid_Valid g = Ok true <-> conflict_free g.
Proof.
  intros Hg. destruct (Grid_Valid_conflict_free g Hg) as [[-> ?]|[-> ?]]; naive_solver.
Qed.

(** X19.  [CellGroup.Valid] does not depend on the order of the cells:
    two groups with cells 0..9 that are permutations of each other get the
    same answer. *)
Theorem CellGroup_Valid_Permutation (c1 c2 : CellGroup) :
  group_in_range c1 -> c1 ≡ₚ c2 -> CellGroup_Valid c2 = CellGroup_Valid c1.
Proof.
  intros Hrange Hperm.
  assert (group_in_range c2) as Hrange2.
  { unfold group_in_range. by rewrite <- Hperm. }
  assert (no_repeat c1 <-> no_repeat c2) as Hiff.
  { unfold no_repeat. by rewrite Hperm. }
  destruct (CellGroup_Valid_no_repeat c1 Hrange) as [[-> ?]|[-> ?]],
    (CellGroup_Valid_no_repeat c2 Hrange2) as [[-> ?]|[-> ?]]; naive_solver.
Qed.

Lemma CellGroup_Valid_Permutation_witness :
  group_in_range [5; 3; 0; 0; 7; 0; 0; 3; 0] /\
  CellGroup_Valid (reverse [5; 3; 0; 0; 7; 0; 0; 3; 0]) =
  CellGroup_Valid [5; 3; 0; 0; 7; 0; 0; 3; 0].
Proof.
  assert (group_in_range [5; 3; 0; 0; 7; 0; 0; 3; 0]) as Hrange.
  { apply (bool_decide_unpack _). by vm_compute. }
  split; [exact Hrange|].
  apply (CellGroup_Valid_Permutation _ _ Hrange). symmetry. apply reverse_Permutation.
Defined.

(** X20.  Erasing digits keeps a grid valid: if [s] passes [Grid.Valid]
    and [g] agrees with [s] wherever [g] is filled, then [g] passes
    [Grid.Valid] too, in both drafts. *)
Theorem Grid_Valid_erase (g s : Grid) :
  is_grid g -> is_grid s -> extends g s -> Grid_Valid s = Ok true ->
  Grid_Valid g = Ok true /\ Grid_Valid_groups g = Ok true.
Proof.
  intros Hg Hs Hext Hvalid.
  assert (Grid_Valid g = Ok true) as Hrun.
  { apply Grid_Valid_true_conflict_free; [done|].
    apply (conflict_free_extends g s Hext).
    by apply Grid_Valid_true_conflict_free. }
  split; [done|]. by rewrite Grid_Valid_groups_eq.
Qed.

Lemma Grid_Valid_erase_witness :
  is_grid partial /\ is_grid filled /\ extends partial filled /\
  Grid_Valid filled = Ok true /\
  Grid_Valid partial = Ok true /\ Grid_Valid_groups partial = Ok true.
Proof.
  assert (extends partial filled) as Hext.
  { by destruct completion_partial_filled as (_ & _ & _ & ?). }
  assert (Grid_Valid filled = Ok true) as Hvalid by (by vm_compute).
  split; [exact is_grid_partial|]. split; [exact is_grid_filled|].
  split; [exact Hext|]. split; [exact Hvalid|].
  exact (Grid_Valid_erase partial filled is_grid_partial is_grid_filled Hext Hvalid).
Defined.

(** X21.  Filling one empty cell of a valid grid with a digit [v] gives a
    valid grid exactly when no cell of the same row, column or box
    already holds [v]. *)
Theorem Grid_Valid_store (g : Grid) (r c : nat) (v : Z) :
  is_grid g -> Grid_Valid g = Ok true -> cell g r c = Some 0 -> 1 <= v <= 9 ->
  (Grid_Valid (store g r c v) = Ok true <->
   forall q, peer (r, c) q -> cell g q.1 q.2 ≠ Some v).
Proof.
  intros Hg Hvalid Hcell Hv.
  assert (is_grid (store g r c v)) as Hg' by (apply is_grid_store; [done|lia]).
  assert (cell (store g r c v) r c = Some v) as Hnew.
  { apply cell_store_eq. by rewrite Hcell. }
  apply Grid_Valid_true_conflict_free in Hvalid; [|done].
  rewrite (Grid_Valid_true_conflict_free _ Hg'). split.
  - intros Hfree [qr qc] Hpeer Hq. simpl in Hq.
    assert ((r, c) ≠ (qr, qc)) as Hne.
    { intros [= <- <-]. rewrite Hcell in Hq. injection Hq as Heq. lia. }
    apply (Hfree (r, c) (qr, qc) v); [done| |lia|done..].
    simpl. by rewrite cell_store_ne.
  - intros Hnone [pr pc] [qr qc] w Hp Hq Hw Hne Hpeer. simpl in Hp, Hq.
    destruct (decide ((r, c) = (pr, pc))) as [Hpe|Hpe],
      (decide ((r, c) = (qr, qc))) as [Hqe|Hqe].
    + congruence.
    + injection Hpe as <- <-. rewrite cell_store_ne in Hq by done.
      assert (w = v) as -> by congruence.
      by apply (Hnone (qr, qc)).
    + injection Hqe as <- <-. rewrite cell_store_ne in Hp by done.
      assert (w = v) as -> by congruence.
      apply (Hnone (pr, pc)); [by apply peer_sym|done].
    + rewrite cell_store_ne in Hp, Hq by done.
      by apply (Hvalid (pr, pc) (qr, qc) w).
Qed.

Lemma Grid_Valid_store_witness :
  is_grid partial /\ Grid_Valid partial = Ok true /\ cell partial 0 2 = Some 0 /\
  (Grid_Valid (store partial 0 2 4) = Ok true <->
   forall q, peer (0%nat, 2%nat) q -> cell partial q.1 q.2 ≠ Some 4).
Proof.
  assert (Grid_Valid partial = Ok true) as Hvalid by (by vm_compute).
  assert (cell partial 0 2 = Some 0) as Hcell by reflexivity.
  split; [exact is_grid_partial|]. split; [exact Hvalid|]. split; [exact Hcell|].
  apply (Grid_Valid_store partial 0 2 4 is_grid_partial Hvalid Hcell). lia.
Defined.

(** ** Validity of the transposed grid *)

Lemma is_grid_cells g :
  grid_shape g -> (forall r c v, cell g r c = Some v -> 0 <= v <= 9) -> is_grid g.
Proof.
  intros [Hlen Hrows] Hcells. split; [done|].
  apply Forall_lookup. intros r rowCells Hr. split.
  - by eapply Forall_lookup_1 in Hrows.
  - apply Forall_lookup. intros c v Hc. apply (Hcells r c).
    unfold cell. by rewrite Hr.
Qed.

Lemma is_grid_Columns g : is_grid g -> is_grid (Columns g).
Proof.
  intros Hg. pose proof (is_grid_shape g Hg) as Hshape.
  apply is_grid_cells; [by apply grid_shape_Columns|].
  intros r c v Hv. rewrite cell_Columns in Hv by done.
  by destruct (is_grid_cell g c r v Hg Hv) as (_ & _ & ?).
Qed.

Lemma peer_swap r c r' c' :
  (r < 9)%nat -> (c < 9)%nat -> (r' < 9)%nat -> (c' < 9)%nat ->
  peer (r, c) (r', c') -> peer (c, r) (c', r').
Proof.
  unfold peer, box_of. cbn [fst snd].
  intros Hr Hc Hr' Hc' [->|[->|Hbox]]; [by right; left|by left|].
  right. right.
  assert (r / 3 < 3 /\ r' / 3 < 3 /\ c / 3 < 3 /\ c' / 3 < 3)%nat as (? & ? & ? & ?).
  { repeat split; apply Nat.Div0.div_lt_upper_bound; lia. }
  lia.
Qed.

Lemma conflict_free_Columns g :
  is_grid g -> conflict_free g -> conflict_free (Columns g).
Proof.
  intros Hg Hfree [pr pc] [qr qc] v Hp Hq Hv Hne Hpeer. simpl in Hp, Hq.
  pose proof (is_grid_shape g Hg) as Hshape.
  rewrite cell_Columns in Hp, Hq by done.
  destruct (is_grid_cell g pc pr v Hg Hp) as (? & ? & _).
  destruct (is_grid_cell g qc qr v Hg Hq) as (? & ? & _).
  apply (Hfree (pc, pr) (qc, qr) v); [done..|congruence|].
  by apply peer_swap.
Qed.

(** X22.  Transposing does not change validity: [Grid.Valid] gives the
    same answer on a grid and on its [Grid.Columns], in both drafts. *)
Theorem Grid_Valid_Columns (g : Grid) :
  is_grid g ->
  Grid_Valid (Columns g) = Grid_Valid g /\
  Grid_Valid_groups (Columns g) = Grid_Valid_groups g.
Proof.
  intros Hg. pose proof (is_grid_Columns g Hg) as Hg'.
  assert (conflict_free (Columns g) <-> conflict_free g) as Hiff.
  { split; [|by apply conflict_free_Columns].
    intros Hfree. rewrite <- (Columns_involutive g (is_grid_shape g Hg)).
    by apply conflict_free_Columns. }
  assert (Grid_Valid (Columns g) = Grid_Valid g) as Hrun.
  { destruct (Grid_Valid_conflict_free g Hg) as [[-> ?]|[-> ?]],
      (Grid_Valid_conflict_free _ Hg') as [[-> ?]|[-> ?]]; naive_solver. }
  split; [done|]. by rewrite !Grid_Valid_groups_eq.
Qed.

Lemma Grid_Valid_Columns_witness :
  is_grid partial /\
  Grid_Valid (Columns partial) = Grid_Valid partial /\
  Grid_Valid_groups (Columns partial) = Grid_Valid_groups partial.
Proof.
  split; [exact is_grid_partial|].
  exact (Grid_Valid_Columns partial is_grid_partial).
Defined.
